(** * Voice-assistant conversation engine: state machine, VAD and orchestrator

    A shallow embedding of the state-machine service
    ([state/StateMachine.ts], [handlers/WebRTCHandler.ts],
    [handlers/Orchestrator.ts], [types/index.ts]) and the properties of it
    that the specification states, followed by further properties of the
    same code.

    Conventions of the embedding.
    - A JS [Map<string, V>] is a [gmap string V]; [Map.get] is lookup.
    - A session is a mutable object that lives in the registry; a handler that
      receives the object receives, here, the registry key under which the
      object is stored ([ref]) and reads and writes the object through it.
      [transitionTo] is called by the handlers with [session.session_id], as in
      the source, and looks the registry up again.
    - [Date.now()] and [new Date()] are the argument [now] of the entry points.
    - [this.emit] and [setTimeout] append to a log of effects, in order.
    - Numbers that the VAD computes are IEEE-754 binary64 values, as in JS.
    - A string is the sequence of the bytes of its UTF-8 form.
    - A WebSocket is its ready state and the list of what was sent on it; the
      events of a socket ([message], [close]) are inputs of the handler. *)

From Stdlib Require Import ZArith Floats.
From Stdlib.Strings Require Import Byte Ascii.
From stdpp Require Import gmap strings list.

Open Scope Z_scope.

(** ** types/index.ts *)

Module ConversationState.
Inductive t :=
  | IDLE | LISTENING | TRANSCRIBING | INTERPRETING | ANSWERING
  | SPEAKING | INTERRUPTED | ERROR | ENDED.

#[global] Instance eq_dec : EqDecision t.
Proof. solve_decision. Defined.
End ConversationState.

(** The records that events carry. Fields that no function embedded here
    reads are kept where they are strings, booleans or integers; the numeric
    options of the configuration ([interruptionThreshold], [silenceThreshold],
    [vadSensitivity]), the [confidence] of a transcription and the
    [tool_calls] of a response are left out, and a citation is an opaque
    string. Dates and timestamps are integers (milliseconds). *)
Module Data.

(** A Node [Buffer]. *)
Definition Buffer := list byte.

Record SessionConfig := {
  tenantId : string;
  userId : string;
  voice : option string;
  tone : option string;
  energy : option string;
  pace : option string;
  prosody : option string;
  enableBreaths : option bool;
  enableSSML : option bool
}.

Record AudioChunk := {
  chunk_data : Buffer;
  chunk_timestamp : Z;
  sampleRate : Z;
  channels : Z
}.

Record TranscriptionResult := {
  tr_text : string;
  is_final : bool;
  language : option string;
  tr_timestamp : Z
}.

Record LLMResponse := {
  llm_text : string;
  citations : list string;
  llm_timestamp : Z
}.

End Data.

(** The members of [EventType]; a member whose handler reads the [data] of
    the payload carries that data (see [EventPayload] below). *)
Module EventType.
Import Data.
Inductive t :=
  | START_SESSION | END_SESSION
  | USER_AUDIO (data : AudioChunk)
  | USER_INTERRUPT
  | VAD_START | VAD_END
  | TRANSCRIPTION_PARTIAL
  | TRANSCRIPTION_FINAL (data : TranscriptionResult)
  | LLM_THINKING | LLM_RESPONSE_START | LLM_RESPONSE_CHUNK
  | LLM_RESPONSE_COMPLETE (data : LLMResponse)
  | TTS_START (stream_id : string)
  | TTS_CHUNK | TTS_COMPLETE | TTS_STOPPED
  | STATE_CHANGE
  | ERROR (error : string).
End EventType.

Module Types.
Export Data.

Record ConversationTurn := {
  turn_id : string;
  user_text : string;
  assistant_text : string;
  turn_citations : list string;
  audio_duration_ms : Z;
  latency_ms : Z;
  turn_timestamp : Z
}.

Record SessionMetrics := {
  total_turns : Z;
  total_duration_ms : Z;
  avg_latency_ms : Z;
  interruption_count : Z;
  error_count : Z;
  metrics_created_at : Z
}.

(** The [metadata] objects that the state machine attaches to a transition;
    one constructor per object literal in the source. *)
Inductive Metadata :=
  | meta_audio_chunks (audio_chunks : nat)
  | meta_interrupted_state (interrupted_state : ConversationState.t)
  | meta_transcript (transcript : string)
  | meta_response_length (response_length : nat)
  | meta_error (error : string).

Record StateTransition := {
  from : ConversationState.t;
  to : ConversationState.t;
  event : EventType.t;
  timestamp : Z;
  metadata : option Metadata
}.

Record Session := {
  session_id : string;
  config : SessionConfig;
  state : ConversationState.t;
  conversation_history : list ConversationTurn;
  current_turn : option ConversationTurn;
  audio_buffer : list AudioChunk;
  transcript_buffer : list TranscriptionResult;
  pending_response : option LLMResponse;
  tts_stream_id : option string;
  metrics : SessionMetrics;
  state_history : list StateTransition;
  created_at : Z;
  last_activity : Z
}.

(** A payload of [handleEvent]. The [event] and the [data] of the source's
    payload are one value here: a member of [EventType] carries the data that
    its handler reads, in the shape in which the emitters of the server
    wiring supply it (an [AudioChunk] for [USER_AUDIO], the transcription
    result for [TRANSCRIPTION_FINAL], the response for
    [LLM_RESPONSE_COMPLETE], [{ stream_id }] for [TTS_START], the error text
    for [ERROR]). *)
Record EventPayload := {
  payload_session_id : string;
  payload_event : EventType.t
}.

(** Field assignments on a session object. *)
Definition set_state v (s : Session) : Session :=
  {| session_id := session_id s; config := config s; state := v;
     conversation_history := conversation_history s;
     current_turn := current_turn s; audio_buffer := audio_buffer s;
     transcript_buffer := transcript_buffer s;
     pending_response := pending_response s;
     tts_stream_id := tts_stream_id s; metrics := metrics s;
     state_history := state_history s; created_at := created_at s;
     last_activity := last_activity s |}.

Definition set_conversation_history v (s : Session) : Session :=
  {| session_id := session_id s; config := config s; state := state s;
     conversation_history := v;
     current_turn := current_turn s; audio_buffer := audio_buffer s;
     transcript_buffer := transcript_buffer s;
     pending_response := pending_response s;
     tts_stream_id := tts_stream_id s; metrics := metrics s;
     state_history := state_history s; created_at := created_at s;
     last_activity := last_activity s |}.

Definition set_current_turn v (s : Session) : Session :=
  {| session_id := session_id s; config := config s; state := state s;
     conversation_history := conversation_history s;
     current_turn := v; audio_buffer := audio_buffer s;
     transcript_buffer := transcript_buffer s;
     pending_response := pending_response s;
     tts_stream_id := tts_stream_id s; metrics := metrics s;
     state_history := state_history s; created_at := created_at s;
     last_activity := last_activity s |}.

Definition set_audio_buffer v (s : Session) : Session :=
  {| session_id := session_id s; config := config s; state := state s;
     conversation_history := conversation_history s;
     current_turn := current_turn s; audio_buffer := v;
     transcript_buffer := transcript_buffer s;
     pending_response := pending_response s;
     tts_stream_id := tts_stream_id s; metrics := metrics s;
     state_history := state_history s; created_at := created_at s;
     last_activity := last_activity s |}.

Definition set_transcript_buffer v (s : Session) : Session :=
  {| session_id := session_id s; config := config s; state := state s;
     conversation_history := conversation_history s;
     current_turn := current_turn s; audio_buffer := audio_buffer s;
     transcript_buffer := v;
     pending_response := pending_response s;
     tts_stream_id := tts_stream_id s; metrics := metrics s;
     state_history := state_history s; created_at := created_at s;
     last_activity := last_activity s |}.

Definition set_pending_response v (s : Session) : Session :=
  {| session_id := session_id s; config := config s; state := state s;
     conversation_history := conversation_history s;
     current_turn := current_turn s; audio_buffer := audio_buffer s;
     transcript_buffer := transcript_buffer s;
     pending_response := v;
     tts_stream_id := tts_stream_id s; metrics := metrics s;
     state_history := state_history s; created_at := created_at s;
     last_activity := last_activity s |}.

Definition set_tts_stream_id v (s : Session) : Session :=
  {| session_id := session_id s; config := config s; state := state s;
     conversation_history := conversation_history s;
     current_turn := current_turn s; audio_buffer := audio_buffer s;
     transcript_buffer := transcript_buffer s;
     pending_response := pending_response s;
     tts_stream_id := v; metrics := metrics s;
     state_history := state_history s; created_at := created_at s;
     last_activity := last_activity s |}.

Definition set_metrics v (s : Session) : Session :=
  {| session_id := session_id s; config := config s; state := state s;
     conversation_history := conversation_history s;
     current_turn := current_turn s; audio_buffer := audio_buffer s;
     transcript_buffer := transcript_buffer s;
     pending_response := pending_response s;
     tts_stream_id := tts_stream_id s; metrics := v;
     state_history := state_history s; created_at := created_at s;
     last_activity := last_activity s |}.

Definition set_state_history v (s : Session) : Session :=
  {| session_id := session_id s; config := config s; state := state s;
     conversation_history := conversation_history s;
     current_turn := current_turn s; audio_buffer := audio_buffer s;
     transcript_buffer := transcript_buffer s;
     pending_response := pending_response s;
     tts_stream_id := tts_stream_id s; metrics := metrics s;
     state_history := v; created_at := created_at s;
     last_activity := last_activity s |}.

Definition set_last_activity v (s : Session) : Session :=
  {| session_id := session_id s; config := config s; state := state s;
     conversation_history := conversation_history s;
     current_turn := current_turn s; audio_buffer := audio_buffer s;
     transcript_buffer := transcript_buffer s;
     pending_response := pending_response s;
     tts_stream_id := tts_stream_id s; metrics := metrics s;
     state_history := state_history s; created_at := created_at s;
     last_activity := v |}.

(** [metrics.total_turns++], [metrics.interruption_count++],
    [metrics.error_count++]. *)
Definition incr_total_turns (k : SessionMetrics) : SessionMetrics :=
  {| total_turns := total_turns k + 1;
     total_duration_ms := total_duration_ms k;
     avg_latency_ms := avg_latency_ms k;
     interruption_count := interruption_count k;
     error_count := error_count k;
     metrics_created_at := metrics_created_at k |}.

Definition incr_interruption_count (k : SessionMetrics) : SessionMetrics :=
  {| total_turns := total_turns k;
     total_duration_ms := total_duration_ms k;
     avg_latency_ms := avg_latency_ms k;
     interruption_count := interruption_count k + 1;
     error_count := error_count k;
     metrics_created_at := metrics_created_at k |}.

Definition incr_error_count (k : SessionMetrics) : SessionMetrics :=
  {| total_turns := total_turns k;
     total_duration_ms := total_duration_ms k;
     avg_latency_ms := avg_latency_ms k;
     interruption_count := interruption_count k;
     error_count := error_count k + 1;
     metrics_created_at := metrics_created_at k |}.

(** [Array.prototype.push]. *)
Definition push {A} (l : list A) (x : A) : list A := l ++ [x].

End Types.

(** ** state/StateMachine.ts *)

Module StateMachine.
Import Types.
Import ConversationState.

(** The callbacks that the state machine hands to [setTimeout]. *)
Inductive TimerCallback :=
  | interrupt_ack (ref : string)
  | error_recovery (ref : string).

(** What the state machine emits and schedules, in order. *)
Inductive Effect :=
  | emit_session_created (session_id : string) (config : SessionConfig)
  | emit_session_deleted (session_id : string)
  | emit_state_change (session_id : string) (transition : StateTransition)
  | emit_stop_tts (session_id : string) (stream_id : option string)
  | emit_forward (event : EventType.t) (session_id : string)
  | set_timeout (callback : TimerCallback) (ms : Z).

Record ConversationStateMachine := {
  sessions : gmap string Session;
  effects : list Effect
}.

(** [new ConversationStateMachine()]. *)
Definition new : ConversationStateMachine :=
  {| sessions := ∅; effects := [] |}.

(** [initializeTransitionRules]: the map from a state to the set of its
    valid successors; [ENDED] has no entry. *)
Definition transitionRules (s : ConversationState.t)
  : option (list ConversationState.t) :=
  match s with
  | IDLE => Some [LISTENING; ENDED]
  | LISTENING => Some [TRANSCRIBING; IDLE; INTERRUPTED; ENDED]
  | TRANSCRIBING => Some [INTERPRETING; LISTENING; INTERRUPTED; ERROR; ENDED]
  | INTERPRETING => Some [ANSWERING; INTERRUPTED; ERROR; ENDED]
  | ANSWERING => Some [SPEAKING; INTERRUPTED; ERROR; ENDED]
  | SPEAKING => Some [LISTENING; IDLE; INTERRUPTED; ERROR; ENDED]
  | INTERRUPTED => Some [LISTENING; IDLE; ENDED]
  | ERROR => Some [IDLE; LISTENING; ENDED]
  | ENDED => None
  end.

(** [Set.prototype.has]. *)
Definition has (set : list ConversationState.t) (x : ConversationState.t)
  : bool :=
  bool_decide (x ∈ set).

Definition emit (e : Effect) (m : ConversationStateMachine)
  : ConversationStateMachine :=
  {| sessions := sessions m; effects := push (effects m) e |}.

(** A read or a write through a session object: [k] runs on the object that
    [ref] designates. *)
Definition with_session (ref : string) (m : ConversationStateMachine)
    (k : Session → ConversationStateMachine) : ConversationStateMachine :=
  match sessions m !! ref with
  | Some session => k session
  | None => m
  end.

Definition assign (ref : string) (f : Session → Session)
    (m : ConversationStateMachine) : ConversationStateMachine :=
  with_session ref m (λ session,
    {| sessions := <[ref := f session]> (sessions m);
       effects := effects m |}).

Definition createSession (now : Z) (uuid : string) (config : SessionConfig)
    (m : ConversationStateMachine) : Session * ConversationStateMachine :=
  let session :=
    {| session_id := uuid;
       config := config;
       state := IDLE;
       conversation_history := [];
       current_turn := None;
       audio_buffer := [];
       transcript_buffer := [];
       pending_response := None;
       tts_stream_id := None;
       metrics := {| total_turns := 0; total_duration_ms := 0;
                     avg_latency_ms := 0; interruption_count := 0;
                     error_count := 0; metrics_created_at := now |};
       state_history := [];
       created_at := now;
       last_activity := now |} in
  (session,
   emit (emit_session_created uuid config)
     {| sessions := <[uuid := session]> (sessions m);
        effects := effects m |}).

Definition getSession (session_id : string) (m : ConversationStateMachine)
  : option Session :=
  sessions m !! session_id.

Definition transitionTo (now : Z) (session_id : string)
    (newState : ConversationState.t) (metadata : option Metadata)
    (m : ConversationStateMachine) : bool * ConversationStateMachine :=
  match sessions m !! session_id with
  | None => (false, m)
  | Some session =>
    let currentState := state session in
    match transitionRules currentState with
    | None => (false, m)
    | Some validTransitions =>
      if negb (has validTransitions newState) then (false, m)
      else
        let transition :=
          {| from := currentState; to := newState;
             event := EventType.STATE_CHANGE; timestamp := now;
             metadata := metadata |} in
        let session :=
          set_last_activity now
            (set_state_history (push (state_history session) transition)
               (set_state newState session)) in
        (true,
         emit (emit_state_change session_id transition)
           {| sessions := <[session_id := session]> (sessions m);
              effects := effects m |})
    end
  end.

Definition deleteSession (now : Z) (session_id : string)
    (m : ConversationStateMachine) : bool * ConversationStateMachine :=
  match sessions m !! session_id with
  | None => (false, m)
  | Some _ =>
    let m := (transitionTo now session_id ENDED None m).2 in
    (true,
     emit (emit_session_deleted session_id)
       {| sessions := delete session_id (sessions m);
          effects := effects m |})
  end.

Definition handleUserInterrupt (now : Z) (ref : string)
    (m : ConversationStateMachine) : ConversationStateMachine :=
  with_session ref m (λ session,
    let currentState := state session in
    if bool_decide (currentState = SPEAKING)
       || bool_decide (currentState = ANSWERING)
    then
      let m := (transitionTo now (session_id session) INTERRUPTED
                  (Some (meta_interrupted_state currentState)) m).2 in
      let m := assign ref
                 (λ s, set_metrics (incr_interruption_count (metrics s)) s)
                 m in
      let m := with_session ref m (λ s,
                 emit (emit_stop_tts (session_id s) (tts_stream_id s)) m) in
      emit (set_timeout (interrupt_ack ref) 200) m
    else m).

Definition handleVADStart (now : Z) (ref : string)
    (m : ConversationStateMachine) : ConversationStateMachine :=
  with_session ref m (λ session,
    if bool_decide (state session = IDLE) then
      (transitionTo now (session_id session) LISTENING None m).2
    else if bool_decide (state session = SPEAKING) then
      handleUserInterrupt now ref m
    else m).

Definition handleVADEnd (now : Z) (ref : string)
    (m : ConversationStateMachine) : ConversationStateMachine :=
  with_session ref m (λ session,
    if bool_decide (state session = LISTENING) then
      (transitionTo now (session_id session) TRANSCRIBING
         (Some (meta_audio_chunks (length (audio_buffer session)))) m).2
    else m).

Definition handleUserAudio (now : Z) (ref : string) (data : AudioChunk)
    (m : ConversationStateMachine) : ConversationStateMachine :=
  let m := assign ref
             (λ s, set_audio_buffer (push (audio_buffer s) data) s) m in
  with_session ref m (λ session,
    if bool_decide (state session = IDLE) then
      (transitionTo now (session_id session) LISTENING None m).2
    else m).

Definition handleTranscriptionFinal (now : Z) (ref : string)
    (data : TranscriptionResult)
    (m : ConversationStateMachine) : ConversationStateMachine :=
  with_session ref m (λ session,
    if bool_decide (state session = TRANSCRIBING) then
      let m := assign ref
                 (λ s, set_transcript_buffer
                         (push (transcript_buffer s) data) s) m in
      let m := (transitionTo now (session_id session) INTERPRETING
                  (Some (meta_transcript (tr_text data))) m).2 in
      assign ref (set_audio_buffer []) m
    else m).

Definition handleLLMResponseComplete (now : Z) (ref : string)
    (data : LLMResponse)
    (m : ConversationStateMachine) : ConversationStateMachine :=
  with_session ref m (λ session,
    if bool_decide (state session = INTERPRETING) then
      let m := assign ref (set_pending_response (Some data)) m in
      (transitionTo now (session_id session) ANSWERING
         (Some (meta_response_length (String.length (llm_text data)))) m).2
    else m).

Definition handleTTSStart (now : Z) (ref : string) (stream_id : string)
    (m : ConversationStateMachine) : ConversationStateMachine :=
  with_session ref m (λ session,
    if bool_decide (state session = ANSWERING) then
      let m := assign ref (set_tts_stream_id (Some stream_id)) m in
      (transitionTo now (session_id session) SPEAKING None m).2
    else m).

Definition handleTTSComplete (now : Z) (ref : string)
    (m : ConversationStateMachine) : ConversationStateMachine :=
  with_session ref m (λ session,
    if bool_decide (state session = SPEAKING) then
      let m := (transitionTo now (session_id session) IDLE None m).2 in
      let m := with_session ref m (λ s,
                 match current_turn s with
                 | Some turn =>
                   assign ref (λ s,
                     set_current_turn None
                       (set_metrics (incr_total_turns (metrics s))
                          (set_conversation_history
                             (push (conversation_history s) turn) s))) m
                 | None => m
                 end) in
      assign ref (λ s,
        set_tts_stream_id None
          (set_pending_response None (set_transcript_buffer [] s))) m
    else m).

Definition handleError (now : Z) (ref : string) (error : string)
    (m : ConversationStateMachine) : ConversationStateMachine :=
  with_session ref m (λ session,
    let m := (transitionTo now (session_id session) ERROR
                (Some (meta_error error)) m).2 in
    let m := assign ref
               (λ s, set_metrics (incr_error_count (metrics s)) s) m in
    emit (set_timeout (error_recovery ref) 2000) m).

Definition handleEvent (now : Z) (payload : EventPayload)
    (m : ConversationStateMachine) : ConversationStateMachine :=
  let session_id := payload_session_id payload in
  match sessions m !! session_id with
  | None => m
  | Some _ =>
    let m := assign session_id (set_last_activity now) m in
    match payload_event payload with
    | EventType.VAD_START => handleVADStart now session_id m
    | EventType.VAD_END => handleVADEnd now session_id m
    | EventType.USER_AUDIO data => handleUserAudio now session_id data m
    | EventType.USER_INTERRUPT => handleUserInterrupt now session_id m
    | EventType.TRANSCRIPTION_FINAL data =>
        handleTranscriptionFinal now session_id data m
    | EventType.LLM_RESPONSE_COMPLETE data =>
        handleLLMResponseComplete now session_id data m
    | EventType.TTS_START stream_id =>
        handleTTSStart now session_id stream_id m
    | EventType.TTS_COMPLETE => handleTTSComplete now session_id m
    | EventType.ERROR error => handleError now session_id error m
    | event => emit (emit_forward event session_id) m
    end
  end.

(** The bodies of the two [setTimeout] callbacks. *)
Definition timer_fired (now : Z) (callback : TimerCallback)
    (m : ConversationStateMachine) : ConversationStateMachine :=
  match callback with
  | interrupt_ack ref =>
    with_session ref m (λ session,
      if bool_decide (state session = INTERRUPTED) then
        (transitionTo now (session_id session) LISTENING None m).2
      else m)
  | error_recovery ref =>
    with_session ref m (λ session,
      if bool_decide (state session = ERROR) then
        (transitionTo now (session_id session) IDLE None m).2
      else m)
  end.


End StateMachine.

(** A script of calls into the state machine: the entry points that the
    server wiring, the timers and the orchestrator use. A timer callback may
    be run at any point of a script, which covers every real schedule (its
    body re-checks the state before it acts). *)
Module Script.
Import Types StateMachine.

Inductive Action :=
  | createSession_call (uuid : string) (config : SessionConfig)
  | handleEvent_call (payload : EventPayload)
  | timeout_call (callback : TimerCallback)
  | current_turn_assignment (ref : string) (turn : ConversationTurn)
  | deleteSession_call (session_id : string).

Definition step (m : ConversationStateMachine) (a : Z * Action)
  : ConversationStateMachine :=
  let now := a.1 in
  match a.2 with
  | createSession_call uuid config => (createSession now uuid config m).2
  | handleEvent_call payload => handleEvent now payload m
  | timeout_call callback => timer_fired now callback m
  | current_turn_assignment ref turn =>
      (* Orchestrator.processTurn: [session.current_turn = turn] *)
      assign ref (set_current_turn (Some turn)) m
  | deleteSession_call session_id => (deleteSession now session_id m).2
  end.

Definition run (script : list (Z * Action)) (m : ConversationStateMachine)
  : ConversationStateMachine :=
  fold_left step script m.

Definition reachable (m : ConversationStateMachine) : Prop :=
  ∃ script, m = run script StateMachine.new.

End Script.

(** ** handlers/WebRTCHandler.ts: connections and voice activity detection *)

Module WebRTC.
Import Types.

Inductive ReadyState := CONNECTING | OPEN | CLOSING | CLOSED.

#[global] Instance ReadyState_eq_dec : EqDecision ReadyState.
Proof. solve_decision. Defined.

(** The objects that are sent as JSON text: those that the handler builds
    and those that the server wiring hands to [sendMessage]. *)
Inductive Message :=
  | ready (session_id : string)
  | answer (sdp : string)
  | stop_tts (timestamp : Z)
  | state_change (state : ConversationState.t) (timestamp : Z)
  | llm_thinking (timestamp : Z).

(** What [ws.send] is given: the JSON text of a message, or the packet of
    [sendAudio], the JSON header line followed by the audio bytes. *)
Inductive Frame :=
  | text (message : Message)
  | packet (is_final : bool) (timestamp : Z) (audioData : Buffer).

(** A socket: its state, and what has been sent on it, in order. *)
Record WebSocket := {
  readyState : ReadyState;
  sent : list Frame
}.

(** The events of the handler that are embedded: those of the audio path and
    that of a disconnection (the events of the signaling messages and of
    socket errors are not). *)
Inductive Emitted :=
  | emit_user_audio (session_id : string) (chunk : AudioChunk)
  | emit_vad_start (session_id : string)
  | emit_vad_end (session_id : string)
  | emit_disconnected (session_id : string).

(** [audioStreams] maps a session that is marked speaking to the time at
    which it was marked; [silenceTimers] holds the sessions that have a live
    silence timer (the source stores the timer under the session id, clears
    it when it removes the entry, and the timer removes its own entry when it
    fires). *)
Record WebRTCHandler := {
  connections : gmap string WebSocket;
  vadThreshold : float;
  silenceThreshold : Z;
  audioStreams : gmap string Z;
  silenceTimers : gset string;
  emitted : list Emitted
}.

Definition new : WebRTCHandler :=
  {| connections := ∅;
     vadThreshold := 0x1.47ae147ae147bp-7%float;  (* 0.01 *)
     silenceThreshold := 1000;
     audioStreams := ∅;
     silenceTimers := ∅;
     emitted := [] |}.

Definition configureVAD (threshold : float) (silenceMs : Z)
    (h : WebRTCHandler) : WebRTCHandler :=
  {| connections := connections h;
     vadThreshold := threshold; silenceThreshold := silenceMs;
     audioStreams := audioStreams h; silenceTimers := silenceTimers h;
     emitted := emitted h |}.

Definition emit (e : Emitted) (h : WebRTCHandler) : WebRTCHandler :=
  {| connections := connections h;
     vadThreshold := vadThreshold h; silenceThreshold := silenceThreshold h;
     audioStreams := audioStreams h; silenceTimers := silenceTimers h;
     emitted := push (emitted h) e |}.

Definition set_connections v (h : WebRTCHandler) : WebRTCHandler :=
  {| connections := v;
     vadThreshold := vadThreshold h; silenceThreshold := silenceThreshold h;
     audioStreams := audioStreams h; silenceTimers := silenceTimers h;
     emitted := emitted h |}.

Definition set_audioStreams v (h : WebRTCHandler) : WebRTCHandler :=
  {| connections := connections h;
     vadThreshold := vadThreshold h; silenceThreshold := silenceThreshold h;
     audioStreams := v; silenceTimers := silenceTimers h;
     emitted := emitted h |}.

Definition set_silenceTimers v (h : WebRTCHandler) : WebRTCHandler :=
  {| connections := connections h;
     vadThreshold := vadThreshold h; silenceThreshold := silenceThreshold h;
     audioStreams := audioStreams h; silenceTimers := v;
     emitted := emitted h |}.

(** [ws.send(frame)]. *)
Definition ws_send (frame : Frame) (ws : WebSocket) : WebSocket :=
  {| readyState := readyState ws; sent := push (sent ws) frame |}.

Definition sendMessage (session_id : string) (message : Message)
    (h : WebRTCHandler) : WebRTCHandler :=
  match connections h !! session_id with
  | Some ws =>
    if bool_decide (readyState ws ≠ OPEN) then h
    else
      set_connections
        (<[session_id := ws_send (text message) ws]> (connections h)) h
  | None => h
  end.

Definition sendAudio (now : Z) (session_id : string) (audioData : Buffer)
    (is_final : bool) (h : WebRTCHandler) : WebRTCHandler :=
  match connections h !! session_id with
  | Some ws =>
    if bool_decide (readyState ws ≠ OPEN) then h
    else
      set_connections
        (<[session_id := ws_send (packet is_final now audioData) ws]>
           (connections h)) h
  | None => h
  end.

Definition stopTTS (now : Z) (session_id : string) (h : WebRTCHandler)
  : WebRTCHandler :=
  sendMessage session_id (stop_tts now) h.

Definition handleConnection (ws : WebSocket) (session_id : string)
    (h : WebRTCHandler) : WebRTCHandler :=
  sendMessage session_id (ready session_id)
    (set_connections (<[session_id := ws]> (connections h)) h).

Definition handleDisconnect (session_id : string) (h : WebRTCHandler)
  : WebRTCHandler :=
  let h := set_connections (delete session_id (connections h)) h in
  let h := set_audioStreams (delete session_id (audioStreams h)) h in
  let h :=
    if bool_decide (session_id ∈ silenceTimers h)
    then set_silenceTimers (silenceTimers h ∖ {[session_id]}) h
    else h in
  emit (emit_disconnected session_id) h.

(** [ws.close()] acts on the socket, which [handleDisconnect] then drops from
    the connections. *)
Definition closeConnection (session_id : string) (h : WebRTCHandler)
  : WebRTCHandler :=
  match connections h !! session_id with
  | Some ws => handleDisconnect session_id h
  | None => h
  end.

Definition isConnected (session_id : string) (h : WebRTCHandler) : bool :=
  match connections h !! session_id with
  | Some ws => bool_decide (readyState ws = OPEN)
  | None => false
  end.

(** The keys are listed in the order of [map_to_list], not in the order in
    which the connections were made. *)
Definition getActiveConnections (h : WebRTCHandler) : list string :=
  filter (λ session_id, isConnected session_id h = true)
    (map fst (map_to_list (connections h))).

(** [buf.readInt16LE(i)] on the two bytes at [i] and [i + 1]. *)
Definition readInt16LE (lo hi : byte) : Z :=
  let v := Z.of_N (Byte.to_N lo) + 256 * Z.of_N (Byte.to_N hi) in
  if 32768 <=? v then v - 65536 else v.

(** The JS number that holds an integer (exact below 2^53). *)
Definition number (z : Z) : float :=
  if z <? 0 then PrimFloat.opp (PrimFloat.of_uint63 (Uint63.of_Z (- z)))
  else PrimFloat.of_uint63 (Uint63.of_Z z).

(** The loop of [calculateRMSEnergy], two bytes at a time; [None] is the
    [RangeError] of [readInt16LE] on a last byte that has no partner. *)
Fixpoint sum_of_squares (buffer : Buffer) (sum : float) : option float :=
  match buffer with
  | [] => Some sum
  | lo :: rest =>
    match rest with
    | [] => None
    | hi :: rest =>
      let sample := (number (readInt16LE lo hi) / 32768)%float in
      sum_of_squares rest (sum + sample * sample)%float
    end
  end.

Definition calculateRMSEnergy (buffer : Buffer) : option float :=
  let samples := (number (Z.of_nat (length buffer)) / 2)%float in
  match sum_of_squares buffer 0%float with
  | Some sum => Some (PrimFloat.sqrt (sum / samples))
  | None => None
  end.

Definition performVAD (now : Z) (session_id : string) (audioData : Buffer)
    (h : WebRTCHandler) : option WebRTCHandler :=
  match calculateRMSEnergy audioData with
  | None => None
  | Some energy =>
    let isSpeaking := (vadThreshold h <? energy)%float in
    Some
      (if isSpeaking then
         let h :=
           if bool_decide (session_id ∈ silenceTimers h) then
             set_silenceTimers (silenceTimers h ∖ {[session_id]}) h
           else h in
         if negb (bool_decide (is_Some (audioStreams h !! session_id))) then
           emit (emit_vad_start session_id)
             (set_audioStreams (<[session_id := now]> (audioStreams h)) h)
         else h
       else
         if bool_decide (is_Some (audioStreams h !! session_id))
            && negb (bool_decide (session_id ∈ silenceTimers h))
         then set_silenceTimers (silenceTimers h ∪ {[session_id]}) h
         else h)
  end.

(** The callback of the silence timer; it can run only while the timer is
    live. *)
Definition silence_timeout (session_id : string) (h : WebRTCHandler)
  : WebRTCHandler :=
  if bool_decide (session_id ∈ silenceTimers h) then
    emit (emit_vad_end session_id)
      (set_silenceTimers (silenceTimers h ∖ {[session_id]})
         (set_audioStreams (delete session_id (audioStreams h)) h))
  else h.

Definition handleAudioData (now : Z) (session_id : string) (data : Buffer)
    (h : WebRTCHandler) : option WebRTCHandler :=
  let chunk := {| chunk_data := data; chunk_timestamp := now;
                  sampleRate := 16000; channels := 1 |} in
  performVAD now session_id data (emit (emit_user_audio session_id chunk) h).

(** What reaches the handler: a socket that connects for a session
    ([handleConnection]), audio frames in order, the silence timer running
    out in between, the [close] event of a socket ([handleDisconnect]) and a
    request to close the connection ([closeConnection]). *)
Inductive Input :=
  | audio_frame (now : Z) (session_id : string) (data : Buffer)
  | silence_elapsed (session_id : string)
  | socket_connected (ws : WebSocket) (session_id : string)
  | socket_closed (session_id : string)
  | close_requested (session_id : string).

Fixpoint process (inputs : list Input) (h : WebRTCHandler)
  : option WebRTCHandler :=
  match inputs with
  | [] => Some h
  | audio_frame now session_id data :: inputs =>
    match handleAudioData now session_id data h with
    | Some h => process inputs h
    | None => None
    end
  | silence_elapsed session_id :: inputs =>
    process inputs (silence_timeout session_id h)
  | socket_connected ws session_id :: inputs =>
    process inputs (handleConnection ws session_id h)
  | socket_closed session_id :: inputs =>
    process inputs (handleDisconnect session_id h)
  | close_requested session_id :: inputs =>
    process inputs (closeConnection session_id h)
  end.

End WebRTC.

(** ** handlers/Orchestrator.ts: the reasoning request *)

Module Orchestrator.
Import Types.

Inductive Role := user | assistant.

Record Message := { role : Role; content : string }.

Record ChatRequest := {
  messages : list Message;
  request_tenantId : string;
  request_userId : string;
  request_sessionId : string;
  timeout : Z
}.

(** [Array.prototype.slice(-n)]: from index [max (length - n) 0] on. *)
Definition slice_from_end {A} (n : nat) (l : list A) : list A :=
  drop (length l - n) l.

(** The body that [getLLMResponse] posts to the reasoning service. *)
Definition getLLMResponse_request (session : Session) (userText : string)
  : ChatRequest :=
  let messages : list Message := [] in
  let recentHistory := slice_from_end 5 (conversation_history session) in
  let messages :=
    fold_left (λ messages turn,
      push (push messages {| role := user; content := user_text turn |})
           {| role := assistant; content := assistant_text turn |})
      recentHistory messages in
  let messages := push messages {| role := user; content := userText |} in
  {| messages := messages;
     request_tenantId := tenantId (config session);
     request_userId := userId (config session);
     request_sessionId := session_id session;
     timeout := 30000 |}.

(** [String.prototype.trim]. A string is held as the bytes of its UTF-8
    form, so a white-space character of JS (WhiteSpace or LineTerminator) is
    one, two or three bytes:
    U+0009 to U+000D and U+0020;
    U+00A0 (C2 A0);
    U+1680 (E1 9A 80), U+2000 to U+200A (E2 80 80 to E2 80 8A),
    U+2028 and U+2029 (E2 80 A8, E2 80 A9), U+202F (E2 80 AF),
    U+205F (E2 81 9F), U+3000 (E3 80 80) and U+FEFF (EF BB BF). *)
Definition is_white_space (c : ascii) : bool :=
  match nat_of_ascii c with
  | 9%nat | 10%nat | 11%nat | 12%nat | 13%nat | 32%nat => true
  | _ => false
  end.

Definition is_white_space2 (c1 c2 : ascii) : bool :=
  match nat_of_ascii c1, nat_of_ascii c2 with
  | 194%nat, 160%nat => true
  | _, _ => false
  end.

Definition is_white_space3 (c1 c2 c3 : ascii) : bool :=
  match nat_of_ascii c1, nat_of_ascii c2 with
  | 225%nat, 154%nat => Nat.eqb (nat_of_ascii c3) 128
  | 226%nat, 128%nat =>
      (Nat.leb 128 (nat_of_ascii c3) && Nat.leb (nat_of_ascii c3) 138)
      || Nat.eqb (nat_of_ascii c3) 168 || Nat.eqb (nat_of_ascii c3) 169
      || Nat.eqb (nat_of_ascii c3) 175
  | 226%nat, 129%nat => Nat.eqb (nat_of_ascii c3) 159
  | 227%nat, 128%nat => Nat.eqb (nat_of_ascii c3) 128
  | 239%nat, 187%nat => Nat.eqb (nat_of_ascii c3) 191
  | _, _ => false
  end.

(** The string without the white space that it starts with, the bytes of a
    character being read in order ([backwards] false) or last byte first, as
    they come in a reversed string. *)
Fixpoint strip (backwards : bool) (s : string) : string :=
  match s with
  | String c1 rest1 =>
    if is_white_space c1 then strip backwards rest1
    else
      match rest1 with
      | String c2 rest2 =>
        if (if backwards then is_white_space2 c2 c1
            else is_white_space2 c1 c2)
        then strip backwards rest2
        else
          match rest2 with
          | String c3 rest3 =>
            if (if backwards then is_white_space3 c3 c2 c1
                else is_white_space3 c1 c2 c3)
            then strip backwards rest3
            else s
          | EmptyString => s
          end
      | EmptyString => s
      end
  | EmptyString => EmptyString
  end.

Definition trimStart (s : string) : string := strip false s.

Definition trimEnd (s : string) : string :=
  String.rev (strip true (String.rev s)).

Definition trim (s : string) : string := trimEnd (trimStart s).

(** The test of [processTurn] that ends a turn after the transcription:
    [!transcription.text || transcription.text.trim().length === 0]. *)
Definition empty_transcription (text : string) : bool :=
  bool_decide (text = EmptyString)
  || bool_decide (String.length (trim text) = 0%nat).

End Orchestrator.

(** ** The server wiring: what a turn of the orchestrator sends to the state
    machine *)

Module Wiring.
Import Types StateMachine Script.

Definition on (session_id : string) (event : EventType.t) : Action :=
  handleEvent_call
    {| payload_session_id := session_id; payload_event := event |}.

(** [Orchestrator.processTurn] when the three services answer, seen from the
    state machine: the events that the server wiring forwards to
    [handleEvent] (each is handled to the end inside the [emit] that raises
    it) and the assignment of the turn, in the order of the source.
    [transcribeAudio] emits [transcription_final] before [processTurn] tests
    the text and gives the turn up; [synthesizeSpeech] emits [tts_start]
    before it calls the service. *)
Definition processTurn (session_id : string)
    (transcription : TranscriptionResult) (llmResponse : LLMResponse)
    (stream_id : string) (turn : ConversationTurn) : list Action :=
  on session_id (EventType.TRANSCRIPTION_FINAL transcription) ::
  if Orchestrator.empty_transcription (tr_text transcription) then []
  else
    [ on session_id (EventType.LLM_RESPONSE_COMPLETE llmResponse);
      on session_id (EventType.TTS_START stream_id);
      current_turn_assignment session_id turn;
      on session_id EventType.TTS_COMPLETE ].

(** The same actions, stamped with one time. *)
Definition at_time (now : Z) (actions : list Action) : list (Z * Action) :=
  map (pair now) actions.

End Wiring.

(** ** state/StateMachine.ts: removal of stale sessions *)

Module Maintenance.
Import Types StateMachine.

(** [cleanupStaleSessions]. The loop runs over the entries of the registry;
    the entry of a session is its own, and [deleteSession] touches no other
    session, so the loop is a fold over the entries that the registry has
    when it starts. The registry of the embedding keeps no insertion order:
    the order in which the removals are emitted is the order of
    [map_to_list], not that of the source. *)
Definition cleanupStaleSessions (now maxAgeMs : Z)
    (m : ConversationStateMachine) : nat * ConversationStateMachine :=
  fold_left
    (λ acc entry,
       let age := now - last_activity entry.2 in
       if bool_decide (age > maxAgeMs)
       then (S acc.1, (deleteSession now entry.1 acc.2).2)
       else acc)
    (map_to_list (sessions m)) (0%nat, m).

End Maintenance.

(** ** handlers/Orchestrator.ts: a turn, with services that may fail *)

Module Turn.
Import Types StateMachine Script Wiring.

(** What an awaited call to a service gives: a response, or an exception. *)
Inductive Outcome (A : Type) :=
  | resolved (value : A)
  | rejected (message : string).
Arguments resolved {A} value.
Arguments rejected {A} message.

(** Each stage gives the events that reach the state machine, in order, and
    its result: the value that it returns, or the exception that it rethrows
    after it has emitted its [error] event. The server wiring hands the
    [error] text of that event to [handleEvent]. *)
Definition transcribeAudio (session_id : string)
    (response : Outcome TranscriptionResult)
  : list Action * Outcome TranscriptionResult :=
  match response with
  | resolved result =>
    ([on session_id (EventType.TRANSCRIPTION_FINAL result)], resolved result)
  | rejected message =>
    ([on session_id (EventType.ERROR "Transcription failed")],
     rejected message)
  end.

Definition getLLMResponse (session_id : string)
    (response : Outcome LLMResponse)
  : list Action * Outcome LLMResponse :=
  match response with
  | resolved llmResponse =>
    ([on session_id (EventType.LLM_RESPONSE_COMPLETE llmResponse)],
     resolved llmResponse)
  | rejected message =>
    ([on session_id (EventType.ERROR "LLM processing failed")],
     rejected message)
  end.

(** [tts_start] is emitted before the service is called. *)
Definition synthesizeSpeech (session_id stream_id : string)
    (response : Outcome Buffer) : list Action * Outcome Buffer :=
  match response with
  | resolved audioBuffer =>
    ([on session_id (EventType.TTS_START stream_id)], resolved audioBuffer)
  | rejected message =>
    ([on session_id (EventType.TTS_START stream_id);
      on session_id (EventType.ERROR "Speech synthesis failed")],
     rejected message)
  end.

(** The turn record that [processTurn] builds. *)
Definition turn_of (turn_id : string) (transcription : TranscriptionResult)
    (llmResponse : LLMResponse) (turnLatency now : Z) : ConversationTurn :=
  {| turn_id := turn_id;
     user_text := tr_text transcription;
     assistant_text := llm_text llmResponse;
     turn_citations := citations llmResponse;
     audio_duration_ms := 0;
     latency_ms := turnLatency;
     turn_timestamp := now |}.

(** [processTurn]: the three stages in sequence; an exception of a stage is
    caught at the end, where one more [error] event is emitted. *)
Definition processTurn (session_id : string)
    (asr : Outcome TranscriptionResult) (llm : Outcome LLMResponse)
    (tts : Outcome Buffer) (stream_id turn_id : string)
    (turnLatency now : Z) : list Action :=
  let failed := [on session_id (EventType.ERROR "Turn processing failed")] in
  let (events1, transcription) := transcribeAudio session_id asr in
  match transcription with
  | rejected _ => events1 ++ failed
  | resolved transcription =>
    if Orchestrator.empty_transcription (tr_text transcription) then events1
    else
      let (events2, llmResponse) := getLLMResponse session_id llm in
      match llmResponse with
      | rejected _ => events1 ++ events2 ++ failed
      | resolved llmResponse =>
        let (events3, audioBuffer) :=
          synthesizeSpeech session_id stream_id tts in
        match audioBuffer with
        | rejected _ => events1 ++ events2 ++ events3 ++ failed
        | resolved _ =>
          events1 ++ events2 ++ events3 ++
          [ current_turn_assignment session_id
              (turn_of turn_id transcription llmResponse turnLatency now);
            on session_id EventType.TTS_COMPLETE ]
        end
      end
  end.

End Turn.

(** * Vocabulary of the properties *)

Import Types StateMachine Script Wiring ConversationState.

(** A pair (from, to) is listed in the transition table. *)
Definition legal (from to : ConversationState.t) : bool :=
  match transitionRules from with
  | Some validTransitions => has validTransitions to
  | None => false
  end.

(** The transition record that [transitionTo] builds. *)
Definition transition_record (now : Z) (from to : ConversationState.t)
    (metadata : option Metadata) : StateTransition :=
  {| from := from; to := to; event := EventType.STATE_CHANGE;
     timestamp := now; metadata := metadata |}.

(** The number of SPEAKING→IDLE transitions in a state history. *)
Definition turn_ends (history : list StateTransition) : nat :=
  length (filter (λ t, from t = SPEAKING ∧ to t = IDLE) history).

(** What holds of the session registered under [key]. *)
Definition session_ok (key : string) (s : Session) : Prop :=
  session_id s = key ∧
  (state s = SPEAKING → is_Some (tts_stream_id s)) ∧
  total_turns (metrics s) = Z.of_nat (length (conversation_history s)) ∧
  total_turns (metrics s) ≤ Z.of_nat (turn_ends (state_history s)).

Definition machine_ok (m : ConversationStateMachine) : Prop :=
  map_Forall session_ok (sessions m).

(** The registry of [m'] has the ids of the registry of [m]. *)
Definition same_ids (m m' : ConversationStateMachine) : Prop :=
  dom (sessions m') = dom (sessions m).

Section request_vocabulary.
Import Orchestrator.

(** The two messages of a completed turn. *)
Definition turn_messages (turn : ConversationTurn) : list Message :=
  [ {| role := user; content := user_text turn |};
    {| role := assistant; content := assistant_text turn |} ].

End request_vocabulary.

Section vad_vocabulary.
Import WebRTC.

(** The 16-bit samples of a frame, in order. *)
Fixpoint samples_of (frame : Buffer) : list Z :=
  match frame with
  | lo :: hi :: rest => readInt16LE lo hi :: samples_of rest
  | _ => []
  end.

(** The energy as the specification writes it:
    sqrt (mean ((sample_i / 32768)²)), the mean being the sum of the terms,
    added in order, divided by [count]. *)
Definition rms_energy (samples : list Z) (count : float) : float :=
  let squares :=
    map (λ sample, (number sample / 32768) * (number sample / 32768))%float
      samples in
  PrimFloat.sqrt (fold_left PrimFloat.add squares 0%float / count).

(** Whether a session is marked speaking. *)
Definition marked (h : WebRTCHandler) (session_id : string) : bool :=
  bool_decide (is_Some (audioStreams h !! session_id)).

Definition timer_live (h : WebRTCHandler) (session_id : string) : bool :=
  bool_decide (session_id ∈ silenceTimers h).

(** The events of one session, followed through a log: [Some b] when
    [vad_start] and [vad_end] alternate from a session that is marked
    speaking ([b] true) or not, a [disconnected] of the session leaving it
    not marked, [b] being the mark at the end; [None] when a [vad_start]
    comes for a session that is marked, or a [vad_end] for one that is
    not. *)
Definition observe (session_id : string) (speaking : option bool)
    (e : Emitted) : option bool :=
  match speaking, e with
  | None, _ => None
  | Some b, emit_user_audio _ _ => Some b
  | Some b, emit_vad_start s =>
      if bool_decide (s = session_id)
      then (if b then None else Some true) else Some b
  | Some b, emit_vad_end s =>
      if bool_decide (s = session_id)
      then (if b then Some false else None) else Some b
  | Some b, emit_disconnected s =>
      if bool_decide (s = session_id) then Some false else Some b
  end.

Definition alternation (session_id : string) (speaking : bool)
    (log : list Emitted) : option bool :=
  fold_left (observe session_id) log (Some speaking).

(** The [vad_start] and [vad_end] events of a session in a log, in order. *)
Definition vad_events_of (session_id : string) (log : list Emitted)
  : list Emitted :=
  flat_map
    (λ e,
       match e with
       | emit_vad_start s | emit_vad_end s =>
           if bool_decide (s = session_id) then [e] else []
       | _ => []
       end)
    log.

(** An input whose frame, if it is one, is PCM: an even number of bytes. *)
Definition pcm (input : Input) : Prop :=
  match input with
  | audio_frame _ _ data => Nat.Even (length data)
  | _ => True
  end.

(** A live silence timer belongs to a session that is marked speaking. *)
Definition timers_of_marked (h : WebRTCHandler) : Prop :=
  ∀ s, s ∈ silenceTimers h → marked h s = true.

End vad_vocabulary.

(** ** Vocabulary of the further properties of the state machine *)

(** The state in which a history that starts in [start] ends. *)
Definition last_state (start : ConversationState.t)
    (history : list StateTransition) : ConversationState.t :=
  fold_left (λ _ t, to t) history start.

(** Each record starts where the one before it ends, the first one in
    [start], and each is a pair of the transition table. *)
Fixpoint chain (start : ConversationState.t)
    (history : list StateTransition) : Prop :=
  match history with
  | [] => True
  | t :: rest =>
    from t = start ∧ legal (from t) (to t) = true ∧ chain (to t) rest
  end.

(** The number of transitions into [target] in a state history. *)
Definition entries_into (target : ConversationState.t)
    (history : list StateTransition) : nat :=
  length (filter (λ t, to t = target) history).

(** Whether a state history leaves a TTS stream behind: one is there from a
    transition into SPEAKING on, until a transition from SPEAKING to IDLE. *)
Definition stream_after (kept : bool) (t : StateTransition) : bool :=
  match from t, to t with
  | _, SPEAKING => true
  | SPEAKING, IDLE => false
  | _, _ => kept
  end.

Definition stream_kept (history : list StateTransition) : bool :=
  fold_left stream_after history false.

(** What more holds of the session registered under [key]. *)
Definition session_sound (key : string) (s : Session) : Prop :=
  session_id s = key ∧
  chain IDLE (state_history s) ∧
  last_state IDLE (state_history s) = state s ∧
  state s ≠ ENDED ∧
  interruption_count (metrics s)
    = Z.of_nat (entries_into INTERRUPTED (state_history s)) ∧
  Z.of_nat (entries_into ERROR (state_history s)) ≤ error_count (metrics s) ∧
  (is_Some (tts_stream_id s) ↔ stream_kept (state_history s) = true).

Definition machine_sound (m : ConversationStateMachine) : Prop :=
  map_Forall session_sound (sessions m).

(** The state in which the handler of an event acts, for the events whose
    handler tests for one state only. *)
Definition handled_in (event : EventType.t) : option ConversationState.t :=
  match event with
  | EventType.VAD_END => Some LISTENING
  | EventType.TRANSCRIPTION_FINAL _ => Some TRANSCRIBING
  | EventType.LLM_RESPONSE_COMPLETE _ => Some INTERPRETING
  | EventType.TTS_START _ => Some ANSWERING
  | EventType.TTS_COMPLETE => Some SPEAKING
  | _ => None
  end.

(** The machine after [handleEvent] has written the activity stamp of the
    session and nothing else. *)
Definition stamped (now : Z) (session : Session)
    (m : ConversationStateMachine) : ConversationStateMachine :=
  {| sessions := <[session_id session := set_last_activity now session]>
                   (sessions m);
     effects := effects m |}.

(** A session is stale when its age is above the bound. *)
Definition stale (now maxAgeMs : Z) (session : Session) : Prop :=
  now - last_activity session > maxAgeMs.

#[global] Instance stale_dec now maxAgeMs session :
  Decision (stale now maxAgeMs session).
Proof. unfold stale. apply _. Defined.


(** ** Examples used by the witnesses and the counterexamples *)

Module Examples.
Import Types StateMachine Script Wiring ConversationState.

Definition config1 : SessionConfig :=
  {| tenantId := "test-tenant"; userId := "test-user"; voice := Some "alloy";
     tone := None; energy := None; pace := None; prosody := None;
     enableBreaths := Some true; enableSSML := Some true |}.

Definition blank_result : TranscriptionResult :=
  {| tr_text := "   "; is_final := true; language := Some "en";
     tr_timestamp := 30 |}.

Definition hello_result : TranscriptionResult :=
  {| tr_text := "hello"; is_final := true; language := Some "en";
     tr_timestamp := 30 |}.

Definition hi_there : LLMResponse :=
  {| llm_text := "hi there"; citations := []; llm_timestamp := 40 |}.

Definition a_turn : ConversationTurn :=
  {| turn_id := "turn-1"; user_text := "hello"; assistant_text := "hi there";
     turn_citations := []; audio_duration_ms := 0; latency_ms := 25;
     turn_timestamp := 55 |}.

(** A session right after [createSession]: IDLE. *)
Definition idle_machine : ConversationStateMachine :=
  run [(0, createSession_call "s1" config1)] StateMachine.new.

(** LISTENING, reached by [vad_start] alone: the audio buffer is empty. *)
Definition listening_machine : ConversationStateMachine :=
  run [(10, on "s1" EventType.VAD_START)] idle_machine.

Definition transcribing_machine : ConversationStateMachine :=
  run [(20, on "s1" EventType.VAD_END)] listening_machine.

Definition answering_machine : ConversationStateMachine :=
  run [(30, on "s1" (EventType.TRANSCRIPTION_FINAL hello_result));
       (40, on "s1" (EventType.LLM_RESPONSE_COMPLETE hi_there))]
    transcribing_machine.

Definition speaking_machine : ConversationStateMachine :=
  run [(50, on "s1" (EventType.TTS_START "stream-123"))] answering_machine.

(** The calls that lead to [speaking_machine]. *)
Definition speaking_script : list (Z * Action) :=
  [(0, createSession_call "s1" config1);
   (10, on "s1" EventType.VAD_START);
   (20, on "s1" EventType.VAD_END);
   (30, on "s1" (EventType.TRANSCRIPTION_FINAL hello_result));
   (40, on "s1" (EventType.LLM_RESPONSE_COMPLETE hi_there));
   (50, on "s1" (EventType.TTS_START "stream-123"))].

(** The session object that [createSession] returned. *)
Definition idle_session : Session :=
  (createSession 0 "s1" config1 StateMachine.new).1.

(** The session object registered under "s1". *)
Definition session_of (m : ConversationStateMachine) : Session :=
  default idle_session (sessions m !! "s1").

(** A socket that is open, with nothing sent on it yet. *)
Definition open_socket : WebRTC.WebSocket :=
  {| WebRTC.readyState := WebRTC.OPEN; WebRTC.sent := [] |}.

End Examples.

Import Examples.

(** ** Examples used by the witnesses of the further properties *)

Module MoreExamples.

(** After a barge-in during SPEAKING. *)
Definition interrupted_machine : ConversationStateMachine :=
  run [(60, on "s1" EventType.USER_INTERRUPT)] speaking_machine.

Definition interrupted_script : list (Z * Action) :=
  speaking_script ++ [(60, on "s1" EventType.USER_INTERRUPT)].

(** After an error during SPEAKING. *)
Definition error_machine : ConversationStateMachine :=
  run [(60, on "s1" (EventType.ERROR "Speech synthesis failed"))]
    speaking_machine.

Definition a_chunk : AudioChunk :=
  {| chunk_data := [x00; x40]; chunk_timestamp := 5; sampleRate := 16000;
     channels := 1 |}.

(** A handler with one open connection, for "s1". *)
Definition connected_handler : WebRTC.WebRTCHandler :=
  WebRTC.handleConnection open_socket "s1" WebRTC.new.

End MoreExamples.

Import MoreExamples.

(** * Properties *)

(** ** The transition table and [transitionTo] *)

Lemma legal_ENDED to : legal ENDED to = false.
Proof. reflexivity. Qed.

Lemma with_session_Some ref m k session :
  sessions m !! ref = Some session → with_session ref m k = k session.
Proof. unfold with_session. by intros ->. Qed.

Lemma with_session_None ref m k :
  sessions m !! ref = None → with_session ref m k = m.
Proof. unfold with_session. by intros ->. Qed.

Lemma assign_Some ref f m session :
  sessions m !! ref = Some session →
  assign ref f m =
    {| sessions := <[ref := f session]> (sessions m);
       effects := effects m |}.
Proof. intros H. unfold assign. by rewrite (with_session_Some _ _ _ _ H). Qed.

Lemma transitionTo_rejects now session_id newState metadata m session :
  sessions m !! session_id = Some session →
  legal (state session) newState = false →
  transitionTo now session_id newState metadata m = (false, m).
Proof.
  intros Hs Hl. unfold transitionTo, legal in *. rewrite Hs.
  destruct (transitionRules (state session)); [|done].
  by rewrite Hl.
Qed.

Lemma transitionTo_accepts now session_id newState metadata m session :
  sessions m !! session_id = Some session →
  legal (state session) newState = true →
  transitionTo now session_id newState metadata m =
    (true,
     {| sessions :=
          <[session_id :=
              set_last_activity now
                (set_state_history
                   (push (state_history session)
                      {| from := state session; to := newState;
                         event := EventType.STATE_CHANGE; timestamp := now;
                         metadata := metadata |})
                   (set_state newState session))]> (sessions m);
        effects :=
          push (effects m)
            (emit_state_change session_id
               {| from := state session; to := newState;
                  event := EventType.STATE_CHANGE; timestamp := now;
                  metadata := metadata |}) |}).
Proof.
  intros Hs Hl. unfold transitionTo, legal in *. rewrite Hs.
  destruct (transitionRules (state session)); [|done].
  by rewrite Hl.
Qed.

Lemma transitionTo_unknown now session_id newState metadata m :
  sessions m !! session_id = None →
  transitionTo now session_id newState metadata m = (false, m).
Proof. intros H. unfold transitionTo. by rewrite H. Qed.


(** C1. A request for a transition (from, to) that the table does not list
    (every request from ENDED is one, see [legal_ENDED]) makes [transitionTo]
    return false and leaves the whole machine as it was: the session is still
    registered, in the same state, with the same state history, and nothing
    is emitted. *)
Theorem illegal_transition_is_noop now session_id newState metadata m session :
  sessions m !! session_id = Some session →
  legal (state session) newState = false →
  let result := transitionTo now session_id newState metadata m in
  result.1 = false ∧ result.2 = m ∧
  ∃ session',
    sessions result.2 !! session_id = Some session' ∧
    state session' = state session ∧
    state_history session' = state_history session.
Proof.
  intros Hs Hl result. subst result.
  rewrite (transitionTo_rejects _ _ _ _ _ _ Hs Hl). simpl.
  repeat split. by exists session.
Qed.

Lemma illegal_transition_is_noop_witness :
  (transitionTo 5 "s1" SPEAKING None idle_machine).1 = false ∧
  (transitionTo 5 "s1" SPEAKING None idle_machine).2 = idle_machine.
Proof.
  pose proof (illegal_transition_is_noop 5 "s1" SPEAKING None idle_machine
                idle_session) as H.
  destruct H as (H1 & H2 & _);
    [vm_compute; reflexivity | reflexivity | exact (conj H1 H2)].
Defined.

(** The turn of the orchestrator on a transcription that has text, from
    TRANSCRIBING: the session ends in IDLE with the turn recorded and counted,
    once. *)
Example processTurn_records_the_turn :
  ∃ session,
    sessions (run (at_time 30
                     (processTurn "s1" hello_result hi_there "stream-123"
                        a_turn))
                transcribing_machine) !! "s1" = Some session ∧
    state session = IDLE ∧
    conversation_history session = [a_turn] ∧
    total_turns (metrics session) = 1 ∧
    turn_ends (state_history session) = 1%nat ∧
    tts_stream_id session = None.
Proof. eexists. split; [vm_compute; reflexivity|]. by repeat split. Qed.

(** No event handler adds or removes a registry entry. *)
Lemma same_ids_emit m m' e :
  same_ids m m' → same_ids m (StateMachine.emit e m').
Proof. done. Qed.

Lemma same_ids_with_session m m' ref k :
  same_ids m m' → (∀ session, same_ids m (k session)) →
  same_ids m (with_session ref m' k).
Proof. intros H Hk. unfold with_session. by destruct (sessions m' !! ref). Qed.

Lemma same_ids_insert m m' ref session session' E :
  same_ids m m' → sessions m' !! ref = Some session →
  same_ids m {| sessions := <[ref := session']> (sessions m'); effects := E |}.
Proof.
  unfold same_ids. intros <- Hs. simpl. rewrite dom_insert_L.
  apply subseteq_union_1_L, singleton_subseteq_l. by apply elem_of_dom_2 in Hs.
Qed.

Lemma same_ids_assign m m' ref f :
  same_ids m m' → same_ids m (assign ref f m').
Proof.
  intros H. unfold assign, with_session.
  destruct (sessions m' !! ref) eqn:Hs; [|done].
  by eapply same_ids_insert.
Qed.

Lemma same_ids_transitionTo m m' now session_id newState metadata :
  same_ids m m' →
  same_ids m (transitionTo now session_id newState metadata m').2.
Proof.
  intros H. unfold transitionTo.
  destruct (sessions m' !! session_id) eqn:Hs; [|done].
  destruct (transitionRules _); [|done]. destruct (negb _); [done|].
  apply same_ids_emit. by eapply same_ids_insert.
Qed.

Ltac same_ids :=
  repeat first
    [ assumption
    | apply same_ids_emit
    | apply same_ids_assign
    | apply same_ids_transitionTo
    | apply same_ids_with_session; [|intros ?]
    | match goal with
      | |- same_ids _ (if ?b then _ else _) => destruct b
      | |- same_ids _ (match ?o with Some _ => _ | None => _ end) =>
          destruct o
      end ].

Lemma handleEvent_same_ids now payload m :
  same_ids m (handleEvent now payload m).
Proof.
  assert (same_ids m m) by done.
  unfold handleEvent. destruct (sessions m !! _); [|done].
  destruct (payload_event payload);
    unfold handleVADStart, handleVADEnd, handleUserAudio,
      handleUserInterrupt, handleTranscriptionFinal,
      handleLLMResponseComplete, handleTTSStart, handleTTSComplete,
      handleError; cbv zeta; same_ids.
Qed.

(** C9. For a session id that is not registered, [handleEvent] returns the
    machine unchanged (no session is created, none is touched, nothing is
    emitted) and [transitionTo] returns false and leaves the machine
    unchanged; and whatever the payload, [handleEvent] leaves the registry
    with the ids that it had: no event creates a session. *)
Theorem unknown_session_is_noop :
  (∀ session_id m,
     sessions m !! session_id = None →
     (∀ now event,
        handleEvent now
          {| payload_session_id := session_id; payload_event := event |} m
        = m) ∧
     (∀ now newState metadata,
        transitionTo now session_id newState metadata m = (false, m))) ∧
  (∀ now payload m,
     dom (sessions (handleEvent now payload m)) = dom (sessions m)).
Proof.
  split.
  - intros session_id m H. split.
    + intros now event. unfold handleEvent. simpl. by rewrite H.
    + intros. by apply transitionTo_unknown.
  - apply handleEvent_same_ids.
Qed.

Lemma unknown_session_is_noop_witness :
  handleEvent 7
    {| payload_session_id := "non-existent-id";
       payload_event := EventType.VAD_START |} idle_machine = idle_machine ∧
  transitionTo 7 "non-existent-id" LISTENING None idle_machine
    = (false, idle_machine).
Proof.
  assert (H : sessions idle_machine !! "non-existent-id" = None)
    by (vm_compute; reflexivity).
  destruct (proj1 unknown_session_is_noop "non-existent-id" idle_machine H)
    as [H1 H2].
  exact (conj (H1 7 EventType.VAD_START) (H2 7 LISTENING None)).
Defined.

(** ** Event handlers on a registered session *)

(** Reading and writing through the registry right after a write to the
    same key. *)
Lemma with_session_insert ref session M E k :
  with_session ref {| sessions := <[ref := session]> M; effects := E |} k
  = k session.
Proof. apply with_session_Some. simpl. apply lookup_insert_eq. Qed.

Lemma assign_insert ref session M E f :
  assign ref f {| sessions := <[ref := session]> M; effects := E |}
  = {| sessions := <[ref := f session]> M; effects := E |}.
Proof.
  erewrite assign_Some by (simpl; apply lookup_insert_eq).
  simpl. by rewrite insert_insert_eq.
Qed.

Lemma transitionTo_insert_accepts now ref session M E newState metadata :
  legal (state session) newState = true →
  transitionTo now ref newState metadata
    {| sessions := <[ref := session]> M; effects := E |}
  = (true,
     {| sessions :=
          <[ref := set_last_activity now
                     (set_state_history
                        (push (state_history session)
                           (transition_record now (state session) newState
                              metadata))
                        (set_state newState session))]> M;
        effects :=
          push E (emit_state_change ref
                    (transition_record now (state session) newState
                       metadata)) |}).
Proof.
  intros Hl.
  erewrite transitionTo_accepts by (simpl; first [apply lookup_insert_eq|done]).
  simpl. by rewrite insert_insert_eq.
Qed.

Lemma transitionTo_insert_rejects now ref session M E newState metadata :
  legal (state session) newState = false →
  transitionTo now ref newState metadata
    {| sessions := <[ref := session]> M; effects := E |}
  = (false, {| sessions := <[ref := session]> M; effects := E |}).
Proof.
  intros Hl. by apply (transitionTo_rejects _ _ _ _ _ session);
    [simpl; apply lookup_insert_eq|].
Qed.

(** Reduction of the record plumbing only; the registry operations stay
    folded. *)
Tactic Notation "fields" :=
  cbn [sessions effects fst snd emit
       session_id config state conversation_history current_turn audio_buffer
       transcript_buffer pending_response tts_stream_id metrics state_history
       created_at last_activity
       set_state set_conversation_history set_current_turn set_audio_buffer
       set_transcript_buffer set_pending_response set_tts_stream_id
       set_metrics set_state_history set_last_activity
       total_turns interruption_count error_count
       incr_total_turns incr_interruption_count incr_error_count
       payload_session_id payload_event
       from to event timestamp metadata transition_record
       orb andb negb].

Tactic Notation "fields" "in" "*" :=
  cbn [sessions effects fst snd emit
       session_id config state conversation_history current_turn audio_buffer
       transcript_buffer pending_response tts_stream_id metrics state_history
       created_at last_activity
       set_state set_conversation_history set_current_turn set_audio_buffer
       set_transcript_buffer set_pending_response set_tts_stream_id
       set_metrics set_state_history set_last_activity
       total_turns interruption_count error_count
       incr_total_turns incr_interruption_count incr_error_count
       payload_session_id payload_event
       from to event timestamp metadata transition_record
       orb andb negb] in *.

Ltac open_session session :=
  destruct session; cbn [session_id state tts_stream_id current_turn] in *;
  subst.

(** Symbolic execution of a handler on a machine whose registry holds a
    session, with a known state, under the key that the handler is given. *)
Ltac run_handler :=
  repeat first
    [ progress fields
    | progress unfold StateMachine.emit
    | rewrite insert_insert_eq
    | rewrite with_session_insert
    | rewrite assign_insert
    | rewrite bool_decide_eq_true_2 by done
    | rewrite bool_decide_eq_false_2 by done
    | rewrite transitionTo_insert_accepts by reflexivity
    | rewrite transitionTo_insert_rejects by reflexivity ].

(** Entering [handleEvent] for a registered session: the activity stamp is
    written first. *)
Lemma handleEvent_registered now ref event m session :
  sessions m !! ref = Some session →
  handleEvent now {| payload_session_id := ref; payload_event := event |} m =
  let m := {| sessions := <[ref := set_last_activity now session]> (sessions m);
              effects := effects m |} in
  match event with
  | EventType.VAD_START => handleVADStart now ref m
  | EventType.VAD_END => handleVADEnd now ref m
  | EventType.USER_AUDIO data => handleUserAudio now ref data m
  | EventType.USER_INTERRUPT => handleUserInterrupt now ref m
  | EventType.TRANSCRIPTION_FINAL data =>
      handleTranscriptionFinal now ref data m
  | EventType.LLM_RESPONSE_COMPLETE data =>
      handleLLMResponseComplete now ref data m
  | EventType.TTS_START stream_id => handleTTSStart now ref stream_id m
  | EventType.TTS_COMPLETE => handleTTSComplete now ref m
  | EventType.ERROR error => handleError now ref error m
  | event => StateMachine.emit (emit_forward event ref) m
  end.
Proof.
  intros Hs. unfold handleEvent. fields. rewrite Hs.
  rewrite (assign_Some _ _ _ _ Hs). by destruct event.
Qed.

(** C3, as the code has it. In LISTENING, [vad_end] moves the session to
    TRANSCRIBING whatever the audio buffer holds, empty or not; the number of
    buffered chunks is the metadata of the transition and the buffer is kept. *)
Theorem vad_end_in_listening now m session :
  sessions m !! session_id session = Some session →
  state session = LISTENING →
  ∃ session',
    sessions (handleEvent now
                {| payload_session_id := session_id session;
                   payload_event := EventType.VAD_END |} m)
      !! session_id session = Some session' ∧
    state session' = TRANSCRIBING ∧
    state_history session' =
      push (state_history session)
        (transition_record now LISTENING TRANSCRIBING
           (Some (meta_audio_chunks (length (audio_buffer session))))) ∧
    audio_buffer session' = audio_buffer session.
Proof.
  intros Hs Hst. rewrite (handleEvent_registered _ _ _ _ _ Hs).
  open_session session. unfold handleVADEnd. run_handler.
  eexists. split; [apply lookup_insert_eq|]. done.
Qed.

(** C3 as it is stated fails: in LISTENING with an empty audio buffer,
    [vad_end] leaves the session in TRANSCRIBING, not in IDLE. *)
Lemma vad_end_with_empty_buffer_counterexample :
  ∃ session session',
    sessions listening_machine !! "s1" = Some session ∧
    state session = LISTENING ∧ audio_buffer session = [] ∧
    sessions (handleEvent 20
                {| payload_session_id := "s1";
                   payload_event := EventType.VAD_END |} listening_machine)
      !! "s1" = Some session' ∧
    state session' = TRANSCRIBING ∧ state session' ≠ IDLE.
Proof.
  do 2 eexists. split; [vm_compute; reflexivity|].
  do 2 (split; [reflexivity|]).
  split; [vm_compute; reflexivity|].
  split; [reflexivity|discriminate].
Qed.

Lemma vad_end_in_listening_witness :
  ∃ session',
    sessions transcribing_machine !! "s1" = Some session' ∧
    state session' = TRANSCRIBING.
Proof.
  destruct (vad_end_in_listening 20 listening_machine
              (session_of listening_machine))
    as (session' & H1 & H2 & _);
    [vm_compute; reflexivity | reflexivity |].
  exists session'. split; [exact H1 | exact H2].
Defined.

(** C2, as the code has it. In TRANSCRIBING, [transcription_final] moves the
    session to INTERPRETING whatever the text is (empty, white space or not):
    the result is appended to the transcript buffer, the text is the metadata
    of the transition, the audio buffer is emptied, and [total_turns] and the
    conversation history are not touched. *)
Theorem transcription_final_in_transcribing now m session data :
  sessions m !! session_id session = Some session →
  state session = TRANSCRIBING →
  ∃ session',
    sessions (handleEvent now
                {| payload_session_id := session_id session;
                   payload_event := EventType.TRANSCRIPTION_FINAL data |} m)
      !! session_id session = Some session' ∧
    state session' = INTERPRETING ∧
    state_history session' =
      push (state_history session)
        (transition_record now TRANSCRIBING INTERPRETING
           (Some (meta_transcript (tr_text data)))) ∧
    audio_buffer session' = [] ∧
    transcript_buffer session' = push (transcript_buffer session) data ∧
    total_turns (metrics session') = total_turns (metrics session) ∧
    conversation_history session' = conversation_history session.
Proof.
  intros Hs Hst. rewrite (handleEvent_registered _ _ _ _ _ Hs).
  open_session session. unfold handleTranscriptionFinal. run_handler.
  eexists. split; [apply lookup_insert_eq|]. done.
Qed.

Lemma transcription_final_in_transcribing_witness :
  ∃ session',
    sessions (handleEvent 30
                {| payload_session_id := "s1";
                   payload_event := EventType.TRANSCRIPTION_FINAL hello_result |}
                transcribing_machine) !! "s1" = Some session' ∧
    state session' = INTERPRETING ∧ audio_buffer session' = [].
Proof.
  destruct (transcription_final_in_transcribing 30 transcribing_machine
              (session_of transcribing_machine) hello_result)
    as (session' & H1 & H2 & _ & H3 & _);
    [vm_compute; reflexivity | reflexivity |].
  exists session'. split; [exact H1 | split; [exact H2 | exact H3]].
Defined.

(** C2 as it is stated fails: a transcription of white space only, received in
    TRANSCRIBING, leaves the session in INTERPRETING, not in LISTENING; and
    the turn of the orchestrator, which ends at that transcription, leaves it
    there. *)
Lemma blank_transcription_counterexample :
  Orchestrator.empty_transcription (tr_text blank_result) = true ∧
  ∃ session session',
    sessions transcribing_machine !! "s1" = Some session ∧
    state session = TRANSCRIBING ∧
    sessions (handleEvent 30
                {| payload_session_id := "s1";
                   payload_event := EventType.TRANSCRIPTION_FINAL blank_result |}
                transcribing_machine) !! "s1" = Some session' ∧
    state session' = INTERPRETING ∧ state session' ≠ LISTENING ∧
    sessions (run (at_time 30
                     (processTurn "s1" blank_result hi_there "stream-123"
                        a_turn))
                transcribing_machine) !! "s1" = Some session'.
Proof.
  split; [vm_compute; reflexivity|].
  do 2 eexists. split; [vm_compute; reflexivity|].
  split; [reflexivity|].
  split; [vm_compute; reflexivity|].
  split; [reflexivity|]. split; [discriminate|].
  vm_compute; reflexivity.
Qed.

(** C5. [user_interrupt] received in SPEAKING or ANSWERING moves the session
    to INTERRUPTED, adds one to [interruption_count] and appends one
    transition record, whose metadata is the state that was interrupted; a
    second [user_interrupt] right after it finds the session in INTERRUPTED
    and appends nothing and counts nothing. In every other state
    [user_interrupt] changes nothing but the activity stamp of the session. *)
Theorem user_interrupt_transitions now m session :
  sessions m !! session_id session = Some session →
  let interrupt now :=
    handleEvent now {| payload_session_id := session_id session;
                       payload_event := EventType.USER_INTERRUPT |} in
  (state session = SPEAKING ∨ state session = ANSWERING →
   ∃ session',
     sessions (interrupt now m) !! session_id session = Some session' ∧
     state session' = INTERRUPTED ∧
     interruption_count (metrics session')
       = interruption_count (metrics session) + 1 ∧
     state_history session' =
       push (state_history session)
         (transition_record now (state session) INTERRUPTED
            (Some (meta_interrupted_state (state session)))) ∧
     ∀ now', ∃ session'',
       sessions (interrupt now' (interrupt now m)) !! session_id session
         = Some session'' ∧
       state session'' = INTERRUPTED ∧
       interruption_count (metrics session'')
         = interruption_count (metrics session') ∧
       state_history session'' = state_history session' ∧
       effects (interrupt now' (interrupt now m))
         = effects (interrupt now m)) ∧
  (state session ≠ SPEAKING → state session ≠ ANSWERING →
   interrupt now m =
     {| sessions := <[session_id session := set_last_activity now session]>
                      (sessions m);
        effects := effects m |}).
Proof.
  intros Hs interrupt. subst interrupt. cbv beta.
  rewrite (handleEvent_registered _ _ _ _ _ Hs). split.
  - intros Hst.
    assert (∀ (M : gmap string Session) E ref s now',
      state s = INTERRUPTED →
      handleEvent now' {| payload_session_id := ref;
                          payload_event := EventType.USER_INTERRUPT |}
        {| sessions := <[ref := s]> M; effects := E |}
      = {| sessions := <[ref := set_last_activity now' s]> M;
           effects := E |}) as Hagain.
    { intros M E ref s now' Hi.
      erewrite handleEvent_registered
        by (cbn [sessions]; apply lookup_insert_eq).
      open_session s. unfold handleUserInterrupt. by run_handler. }
    destruct Hst as [Hst|Hst]; open_session session;
      unfold handleUserInterrupt; run_handler;
      (eexists; split; [apply lookup_insert_eq|];
       do 3 (split; [reflexivity|]);
       intros now'; rewrite Hagain by reflexivity;
       eexists; split; [apply lookup_insert_eq|]; done).
  - intros H1 H2. open_session session. unfold handleUserInterrupt.
    match goal with H : ?st ≠ SPEAKING |- _ => destruct st end;
      try done; by run_handler.
Qed.

Lemma user_interrupt_transitions_witness :
  ∃ session',
    sessions (handleEvent 60
                {| payload_session_id := "s1";
                   payload_event := EventType.USER_INTERRUPT |}
                speaking_machine) !! "s1" = Some session' ∧
    state session' = INTERRUPTED ∧
    interruption_count (metrics session') = 1.
Proof.
  destruct (user_interrupt_transitions 60 speaking_machine
              (session_of speaking_machine)) as [H _];
    [vm_compute; reflexivity|].
  destruct H as (session' & H1 & H2 & H3 & _); [left; reflexivity|].
  exists session'. split; [exact H1 | split; [exact H2 | exact H3]].
Defined.


(** ** Invariants of the sessions that scripts reach *)

Lemma turn_ends_push_le history t :
  (turn_ends history ≤ turn_ends (push history t))%nat.
Proof.
  unfold turn_ends, push. rewrite filter_app, length_app. lia.
Qed.

Lemma turn_ends_push_turn history now metadata :
  turn_ends (push history (transition_record now SPEAKING IDLE metadata))
  = S (turn_ends history).
Proof.
  unfold turn_ends, push. rewrite filter_app, length_app.
  rewrite filter_cons_True by done. simpl. lia.
Qed.

Lemma machine_ok_insert ref session M E :
  session_ok ref session → map_Forall session_ok M →
  machine_ok {| sessions := <[ref := session]> M; effects := E |}.
Proof. intros. by apply map_Forall_insert_2. Qed.

Ltac solve_session_ok :=
  match goal with
  | Hok : session_ok _ _ |- _ =>
    destruct Hok as (Hid & Hh & Ht & Hc); fields in *
  end;
  apply machine_ok_insert; [|assumption];
  repeat split; fields; unfold push;
  rewrite ?length_app; simpl length;
  try done; try lia; eauto;
  repeat match goal with
  | |- context [turn_ends (?h ++ [transition_record ?n SPEAKING IDLE ?md])] =>
      change (h ++ [transition_record n SPEAKING IDLE md])
        with (push h (transition_record n SPEAKING IDLE md));
      rewrite turn_ends_push_turn
  | |- context [turn_ends (?h ++ [?t])] =>
      pose proof (turn_ends_push_le h t);
      change (h ++ [t]) with (push h t);
      generalize dependent (turn_ends (push h t)); intros
  end; try lia.

Lemma handleEvent_ok now payload m :
  machine_ok m → machine_ok (handleEvent now payload m).
Proof.
  intros Hok. destruct payload as [ref event].
  destruct (sessions m !! ref) as [session|] eqn:Hs.
  2: { unfold handleEvent. fields. by rewrite Hs. }
  rewrite (handleEvent_registered _ _ _ _ _ Hs).
  pose proof (Hok _ _ Hs) as Hsession.
  destruct session as [sid cfg st hist cur ab tb pr tts met sh ca la].
  assert (sid = ref) by apply Hsession. subst sid.
  destruct event; cbv zeta;
    unfold handleVADStart, handleVADEnd, handleUserAudio,
      handleUserInterrupt, handleTranscriptionFinal,
      handleLLMResponseComplete, handleTTSStart, handleTTSComplete,
      handleError;
    try (destruct st; run_handler; solve_session_ok).
  (* tts_complete: with and without a current turn *)
  destruct st; try (run_handler; solve_session_ok).
  destruct cur; run_handler; solve_session_ok.
Qed.


Lemma transitionTo_ok now session_id newState metadata m :
  newState ≠ SPEAKING → machine_ok m →
  machine_ok (transitionTo now session_id newState metadata m).2.
Proof.
  intros Hne Hok. unfold transitionTo.
  destruct (sessions m !! session_id) as [session|] eqn:Hs; [|done].
  destruct (transitionRules (state session)); [|done].
  destruct (negb _); [done|]. unfold StateMachine.emit. fields.
  pose proof (Hok _ _ Hs) as Hsession. solve_session_ok.
Qed.

Lemma timer_fired_ok now callback m :
  machine_ok m → machine_ok (timer_fired now callback m).
Proof.
  intros Hok. destruct callback as [ref|ref]; unfold timer_fired, with_session;
    (destruct (sessions m !! ref) as [session|]; [|done]);
    (destruct (bool_decide _); [|done]);
    by apply transitionTo_ok.
Qed.

Lemma createSession_ok now uuid config m :
  machine_ok m → machine_ok (createSession now uuid config m).2.
Proof.
  intros Hok. unfold createSession, StateMachine.emit. fields.
  apply machine_ok_insert; [|done]. by repeat split.
Qed.

Lemma deleteSession_ok now session_id m :
  machine_ok m → machine_ok (deleteSession now session_id m).2.
Proof.
  intros Hok. unfold deleteSession.
  destruct (sessions m !! session_id); [|done].
  unfold StateMachine.emit. fields. apply map_Forall_delete.
  by apply transitionTo_ok.
Qed.

Lemma current_turn_assignment_ok ref turn m :
  machine_ok m → machine_ok (assign ref (set_current_turn (Some turn)) m).
Proof.
  intros Hok. destruct (sessions m !! ref) as [session|] eqn:Hs.
  - rewrite (assign_Some _ _ _ _ Hs).
    pose proof (Hok _ _ Hs) as Hsession. solve_session_ok.
  - unfold assign. by rewrite (with_session_None _ _ _ Hs).
Qed.

Lemma step_ok m a : machine_ok m → machine_ok (step m a).
Proof.
  intros Hok. destruct a as [now []]; unfold step; cbn [fst snd].
  - by apply createSession_ok.
  - by apply handleEvent_ok.
  - by apply timer_fired_ok.
  - by apply current_turn_assignment_ok.
  - by apply deleteSession_ok.
Qed.

Lemma run_ok script m : machine_ok m → machine_ok (run script m).
Proof.
  revert m. induction script as [|a script IH]; intros m Hok; [done|].
  apply IH. by apply step_ok.
Qed.

Lemma reachable_ok m : reachable m → machine_ok m.
Proof.
  intros [script ->]. apply run_ok. unfold machine_ok. simpl.
  apply map_Forall_empty.
Qed.

Lemma deleteSession_registered now session_id m session :
  sessions m !! session_id = Some session →
  deleteSession now session_id m =
    (true,
     {| sessions := delete session_id (sessions m);
        effects :=
          push (if legal (state session) ENDED
                then push (effects m)
                       (emit_state_change session_id
                          (transition_record now (state session) ENDED None))
                else effects m)
            (emit_session_deleted session_id) |}).
Proof.
  intros Hs. unfold deleteSession. rewrite Hs.
  destruct (legal (state session) ENDED) eqn:Hl.
  - rewrite (transitionTo_accepts _ _ _ _ _ _ Hs Hl).
    unfold StateMachine.emit. fields. by rewrite delete_insert_eq.
  - by rewrite (transitionTo_rejects _ _ _ _ _ _ Hs Hl).
Qed.

(** ** The state history of the sessions that scripts reach *)

Lemma last_state_push start history t :
  last_state start (push history t) = to t.
Proof. unfold last_state, push. by rewrite fold_left_app. Qed.

Lemma chain_push start history t :
  chain start history → from t = last_state start history →
  legal (from t) (to t) = true → chain start (push history t).
Proof.
  unfold push. revert start. induction history as [|t0 rest IH]; intros start.
  - simpl. by intros _ -> ->.
  - simpl. intros (-> & Hl & Hrest) Hfrom Hlegal.
    split; [done|]. split; [done|]. by apply IH.
Qed.

Lemma entries_into_push target history t :
  entries_into target (push history t) =
    (entries_into target history
     + if bool_decide (to t = target) then 1 else 0)%nat.
Proof.
  unfold entries_into, push. rewrite filter_app, length_app. f_equal.
  case_bool_decide; [by rewrite filter_cons_True|by rewrite filter_cons_False].
Qed.

Lemma stream_kept_push history t :
  stream_kept (push history t) = stream_after (stream_kept history) t.
Proof. unfold stream_kept, push. by rewrite fold_left_app. Qed.

Lemma machine_sound_insert ref session M E :
  session_sound ref session → map_Forall session_sound M →
  machine_sound {| sessions := <[ref := session]> M; effects := E |}.
Proof. intros. by apply map_Forall_insert_2. Qed.

(** A session that one legal transition has left, with its counters as
    they were or raised. *)
Ltac solve_session_sound :=
  match goal with
  | Hok : session_sound _ _ |- _ =>
    destruct Hok as (Hid & Hchain & Hlast & Hended & Hint & Herr & Hstream);
    fields in *
  end;
  apply machine_sound_insert; [|assumption];
  split; [|split; [|split; [|split; [|split; [|split]]]]]; fields;
  rewrite ?last_state_push, ?entries_into_push, ?stream_kept_push; fields;
  cbn [stream_after from to];
  rewrite ?bool_decide_eq_true_2 by done;
  rewrite ?bool_decide_eq_false_2 by done;
  try done; try lia;
  try (split; [done|by eexists]);
  try (split; [by intros [? ?]|done]);
  try (apply chain_push; fields;
       [ assumption
       | match goal with H : last_state _ _ = _ |- _ => by rewrite H end
       | reflexivity ]).

Lemma handleEvent_sound now payload m :
  machine_sound m → machine_sound (handleEvent now payload m).
Proof.
  intros Hok. destruct payload as [ref event].
  destruct (sessions m !! ref) as [session|] eqn:Hs.
  2: { unfold handleEvent. fields. by rewrite Hs. }
  rewrite (handleEvent_registered _ _ _ _ _ Hs).
  pose proof (Hok _ _ Hs) as Hsession.
  destruct session as [sid cfg st hist cur ab tb pr tts met sh ca la].
  assert (sid = ref) by apply Hsession. subst sid.
  destruct event; cbv zeta;
    unfold handleVADStart, handleVADEnd, handleUserAudio,
      handleUserInterrupt, handleTranscriptionFinal,
      handleLLMResponseComplete, handleTTSStart, handleTTSComplete,
      handleError;
    try (destruct st; run_handler; solve_session_sound).
  destruct st; try (run_handler; solve_session_sound).
  destruct cur; run_handler; solve_session_sound.
Qed.

Lemma transitionTo_sound now session_id newState metadata m :
  newState ≠ ENDED → newState ≠ INTERRUPTED → newState ≠ ERROR →
  newState ≠ SPEAKING →
  (∀ session, sessions m !! session_id = Some session →
     state session = SPEAKING → newState ≠ IDLE) →
  machine_sound m →
  machine_sound (transitionTo now session_id newState metadata m).2.
Proof.
  intros Hne1 Hne2 Hne3 Hne4 Hne5 Hok.
  destruct (sessions m !! session_id) as [session|] eqn:Hs;
    [|by rewrite transitionTo_unknown].
  specialize (Hne5 _ eq_refl).
  destruct (legal (state session) newState) eqn:Hl;
    [|by rewrite (transitionTo_rejects _ _ _ _ _ _ Hs Hl)].
  rewrite (transitionTo_accepts _ _ _ _ _ _ Hs Hl). fields.
  destruct (Hok _ _ Hs)
    as (Hid & Hchain & Hlast & Hended & Hint & Herr & Hstream).
  apply machine_sound_insert; [|done].
  split; [|split; [|split; [|split; [|split; [|split]]]]]; fields;
    rewrite ?last_state_push, ?entries_into_push, ?stream_kept_push; fields;
    try done.
  - apply chain_push; fields; [done|by rewrite Hlast|done].
  - rewrite bool_decide_eq_false_2 by done. lia.
  - rewrite bool_decide_eq_false_2 by done. lia.
  - unfold stream_after. fields.
    destruct (state session), newState; try done; by destruct Hne5.
Qed.

Lemma timer_fired_sound now callback m :
  machine_sound m → machine_sound (timer_fired now callback m).
Proof.
  intros Hok. destruct callback as [ref|ref]; unfold timer_fired, with_session;
    (destruct (sessions m !! ref) as [session|] eqn:Hs; [|done]);
    (case_bool_decide as Hst; [|done]);
    (apply transitionTo_sound; try done);
    rewrite (proj1 (Hok _ _ Hs)), Hs; intros ? [= <-]; by rewrite Hst.
Qed.

Lemma createSession_sound now uuid config m :
  machine_sound m → machine_sound (createSession now uuid config m).2.
Proof.
  intros Hok. unfold createSession, StateMachine.emit. fields.
  apply machine_sound_insert; [|done]. repeat split; try done.
  by intros [? ?].
Qed.

Lemma deleteSession_sound now session_id m :
  machine_sound m → machine_sound (deleteSession now session_id m).2.
Proof.
  intros Hok. destruct (sessions m !! session_id) as [session|] eqn:Hs.
  - rewrite (deleteSession_registered _ _ _ _ Hs). fields.
    by apply map_Forall_delete.
  - unfold deleteSession. by rewrite Hs.
Qed.

Lemma current_turn_assignment_sound ref turn m :
  machine_sound m →
  machine_sound (assign ref (set_current_turn (Some turn)) m).
Proof.
  intros Hok. destruct (sessions m !! ref) as [session|] eqn:Hs.
  - rewrite (assign_Some _ _ _ _ Hs).
    pose proof (Hok _ _ Hs) as Hsession. solve_session_sound.
  - unfold assign. by rewrite (with_session_None _ _ _ Hs).
Qed.

Lemma step_sound m a : machine_sound m → machine_sound (step m a).
Proof.
  intros Hok. destruct a as [now []]; unfold step; cbn [fst snd].
  - by apply createSession_sound.
  - by apply handleEvent_sound.
  - by apply timer_fired_sound.
  - by apply current_turn_assignment_sound.
  - by apply deleteSession_sound.
Qed.

Lemma run_sound script m : machine_sound m → machine_sound (run script m).
Proof.
  revert m. induction script as [|a script IH]; intros m Hok; [done|].
  apply IH. by apply step_sound.
Qed.

Lemma reachable_sound m : reachable m → machine_sound m.
Proof.
  intros [script ->]. apply run_sound. unfold machine_sound. simpl.
  apply map_Forall_empty.
Qed.

(** What [tts_complete] does to a session in SPEAKING. *)
Lemma tts_complete_in_speaking now m session :
  sessions m !! session_id session = Some session →
  state session = SPEAKING →
  ∃ session',
    sessions (handleEvent now
                {| payload_session_id := session_id session;
                   payload_event := EventType.TTS_COMPLETE |} m)
      !! session_id session = Some session' ∧
    state session' = IDLE ∧
    state_history session' =
      push (state_history session)
        (transition_record now SPEAKING IDLE None) ∧
    transcript_buffer session' = [] ∧
    pending_response session' = None ∧
    tts_stream_id session' = None ∧
    current_turn session' = None ∧
    match current_turn session with
    | Some turn =>
      total_turns (metrics session') = total_turns (metrics session) + 1 ∧
      conversation_history session' =
        push (conversation_history session) turn
    | None =>
      total_turns (metrics session') = total_turns (metrics session) ∧
      conversation_history session' = conversation_history session
    end.
Proof.
  intros Hs Hst. rewrite (handleEvent_registered _ _ _ _ _ Hs).
  destruct session as [sid cfg st hist cur ab tb pr tts met sh ca la].
  cbn [session_id state current_turn] in *. subst st.
  unfold handleTTSComplete.
  destruct cur; run_handler; (eexists; split; [apply lookup_insert_eq|]; done).
Qed.

(** C4, as the code has it. In every session that a script of state-machine
    calls reaches, the TTS stream id is present exactly when the state
    history has a transition into SPEAKING that no transition from SPEAKING
    to IDLE follows. So the id is present whenever the state is SPEAKING, and
    [tts_complete] received in SPEAKING leaves the session in IDLE with the
    stream id absent. *)
Theorem stream_id_present_while_speaking m session :
  reachable m →
  sessions m !! session_id session = Some session →
  (is_Some (tts_stream_id session)
   ↔ stream_kept (state_history session) = true) ∧
  (state session = SPEAKING →
   is_Some (tts_stream_id session) ∧
   ∀ now, ∃ session',
     sessions (handleEvent now
                 {| payload_session_id := session_id session;
                    payload_event := EventType.TTS_COMPLETE |} m)
       !! session_id session = Some session' ∧
     state session' = IDLE ∧ tts_stream_id session' = None).
Proof.
  intros Hreach Hs. split.
  - apply (reachable_sound _ Hreach _ _ Hs).
  - intros Hst. split.
    + by apply (reachable_ok _ Hreach _ _ Hs).
    + intros now.
      destruct (tts_complete_in_speaking now m session Hs Hst)
        as (session' & H1 & H2 & _ & _ & _ & H3 & _).
      by exists session'.
Qed.

Lemma stream_id_present_while_speaking_witness :
  stream_kept (state_history (session_of speaking_machine)) = true ∧
  is_Some (tts_stream_id (session_of speaking_machine)).
Proof.
  destruct (stream_id_present_while_speaking speaking_machine
              (session_of speaking_machine)) as [Hiff Hspeaking];
    [exists speaking_script; vm_compute; reflexivity
    | vm_compute; reflexivity |].
  assert (Hst : state (session_of speaking_machine) = SPEAKING)
    by (vm_compute; reflexivity).
  split; [apply Hiff|]; exact (proj1 (Hspeaking Hst)).
Defined.

(** C4 as it is stated fails in both directions: after
    [llm_response_complete] the session is in ANSWERING and has no stream id
    yet, and after a barge-in during SPEAKING the session is in INTERRUPTED
    and still has its stream id. *)
Lemma stream_id_iff_counterexample :
  (∃ session,
     reachable answering_machine ∧
     sessions answering_machine !! "s1" = Some session ∧
     state session = ANSWERING ∧ tts_stream_id session = None) ∧
  (∃ session,
     reachable (run [(60, on "s1" EventType.USER_INTERRUPT)] speaking_machine) ∧
     sessions (run [(60, on "s1" EventType.USER_INTERRUPT)] speaking_machine)
       !! "s1" = Some session ∧
     state session = INTERRUPTED ∧
     tts_stream_id session = Some "stream-123").
Proof.
  split; eexists; (split; [|split; [vm_compute; reflexivity|done]]).
  - exists [(0, createSession_call "s1" config1);
            (10, on "s1" EventType.VAD_START);
            (20, on "s1" EventType.VAD_END);
            (30, on "s1" (EventType.TRANSCRIPTION_FINAL hello_result));
            (40, on "s1" (EventType.LLM_RESPONSE_COMPLETE hi_there))].
    vm_compute; reflexivity.
  - exists [(0, createSession_call "s1" config1);
            (10, on "s1" EventType.VAD_START);
            (20, on "s1" EventType.VAD_END);
            (30, on "s1" (EventType.TRANSCRIPTION_FINAL hello_result));
            (40, on "s1" (EventType.LLM_RESPONSE_COMPLETE hi_there));
            (50, on "s1" (EventType.TTS_START "stream-123"));
            (60, on "s1" EventType.USER_INTERRUPT)].
    vm_compute; reflexivity.
Qed.

(** C6, as the code has it. In every session that a script of state-machine
    calls reaches, [total_turns] is the number of turns in the conversation
    history and is at most the number of SPEAKING→IDLE transitions in the
    state history. [tts_complete] received in SPEAKING appends the
    SPEAKING→IDLE transition and clears the transcript buffer, the pending
    response and the stream id; it appends the current turn to the
    conversation history and adds one to [total_turns] when the session has a
    current turn, and leaves both as they are when it has none. *)
Theorem total_turns_bounded_by_turn_ends m session :
  reachable m →
  sessions m !! session_id session = Some session →
  total_turns (metrics session)
    = Z.of_nat (length (conversation_history session)) ∧
  total_turns (metrics session)
    ≤ Z.of_nat (turn_ends (state_history session)) ∧
  (state session = SPEAKING →
   ∀ now, ∃ session',
     sessions (handleEvent now
                 {| payload_session_id := session_id session;
                    payload_event := EventType.TTS_COMPLETE |} m)
       !! session_id session = Some session' ∧
     state session' = IDLE ∧
     state_history session' =
       push (state_history session)
         (transition_record now SPEAKING IDLE None) ∧
     transcript_buffer session' = [] ∧
     pending_response session' = None ∧
     tts_stream_id session' = None ∧
     match current_turn session with
     | Some turn =>
       total_turns (metrics session') = total_turns (metrics session) + 1 ∧
       conversation_history session' =
         push (conversation_history session) turn
     | None =>
       total_turns (metrics session') = total_turns (metrics session) ∧
       conversation_history session' = conversation_history session
     end).
Proof.
  intros Hreach Hs.
  destruct (reachable_ok _ Hreach _ _ Hs) as (_ & _ & Ht & Hc).
  do 2 (split; [done|]). intros Hst now.
  destruct (tts_complete_in_speaking now m session Hs Hst)
    as (session' & H1 & H2 & H3 & H4 & H5 & H6 & _ & H7).
  by exists session'.
Qed.

Lemma total_turns_bounded_by_turn_ends_witness :
  total_turns (metrics (session_of speaking_machine))
    ≤ Z.of_nat (turn_ends (state_history (session_of speaking_machine))).
Proof.
  apply (total_turns_bounded_by_turn_ends speaking_machine
           (session_of speaking_machine));
    [exists speaking_script; vm_compute; reflexivity
    | vm_compute; reflexivity].
Defined.

(** C6 as it is stated fails: [tts_complete] received in SPEAKING by a session
    that has no current turn records the SPEAKING→IDLE transition and leaves
    [total_turns] at 0. *)
Lemma total_turns_counterexample :
  ∃ session,
    reachable (run [(60, on "s1" EventType.TTS_COMPLETE)] speaking_machine) ∧
    sessions (run [(60, on "s1" EventType.TTS_COMPLETE)] speaking_machine)
      !! "s1" = Some session ∧
    turn_ends (state_history session) = 1%nat ∧
    total_turns (metrics session) = 0.
Proof.
  eexists. split; [|split; [vm_compute; reflexivity|done]].
  exists [(0, createSession_call "s1" config1);
          (10, on "s1" EventType.VAD_START);
          (20, on "s1" EventType.VAD_END);
          (30, on "s1" (EventType.TRANSCRIPTION_FINAL hello_result));
          (40, on "s1" (EventType.LLM_RESPONSE_COMPLETE hi_there));
          (50, on "s1" (EventType.TTS_START "stream-123"));
          (60, on "s1" EventType.TTS_COMPLETE)].
  vm_compute; reflexivity.
Qed.

(** ** The reasoning request *)

Section reasoning_request.
Import Orchestrator.

Lemma fold_push_turns turns acc :
  fold_left (λ messages turn,
    push (push messages {| role := user; content := user_text turn |})
         {| role := assistant; content := assistant_text turn |}) turns acc
  = acc ++ flat_map turn_messages turns.
Proof.
  revert acc. induction turns as [|turn turns IH]; intros acc; simpl.
  - by rewrite app_nil_r.
  - rewrite IH. unfold push. by rewrite <- !app_assoc.
Qed.

Lemma turn_messages_alternate turns (last : Message) i message :
  role last = user →
  (flat_map turn_messages turns ++ [last]) !! i = Some message →
  role message = if Nat.even i then user else assistant.
Proof.
  intros Hlast. revert i. induction turns as [|turn turns IH]; intros i.
  - destruct i as [|i]; simpl; [by intros [= <-]|by destruct i].
  - destruct i as [|[|i]]; simpl; [by intros [= <-]..|]. apply IH.
Qed.

(** C8. The messages of the reasoning request are those of the last
    [min 5 n] turns of the conversation history (n its length), in the order
    of the history, two per turn (the user text, then the assistant text),
    followed by the new user text as a user message; so the roles alternate,
    starting and ending with the user. *)
Theorem reasoning_request_uses_last_five_turns session userText :
  let history := conversation_history session in
  let request := getLLMResponse_request session userText in
  ∃ older recent,
    history = older ++ recent ∧
    length recent = Nat.min 5 (length history) ∧
    messages request =
      flat_map turn_messages recent
        ++ [ {| role := user; content := userText |} ] ∧
    length (messages request) = (2 * length recent + 1)%nat ∧
    (∀ i message, messages request !! i = Some message →
       role message = if Nat.even i then user else assistant) ∧
    last (messages request) = Some {| role := user; content := userText |}.
Proof.
  intros history request.
  exists (take (length history - 5) history),
         (drop (length history - 5) history).
  assert (Hm : messages request =
    flat_map turn_messages (drop (length history - 5) history)
      ++ [ {| role := user; content := userText |} ]).
  { subst request. unfold getLLMResponse_request, slice_from_end. simpl.
    by rewrite fold_push_turns. }
  split; [by rewrite take_drop|].
  split; [rewrite length_drop; lia|].
  split; [done|]. rewrite Hm.
  split.
  { rewrite length_app. simpl.
    generalize (drop (length history - 5) history).
    induction l; simpl; lia. }
  split; [intros i message; by apply turn_messages_alternate|].
  by rewrite last_snoc.
Qed.


End reasoning_request.

(** ** Voice activity detection *)

Section vad.
Import WebRTC.

Lemma float_eqb_not_ltb (x y : float) :
  (x =? y)%float = true → (x <? y)%float = false.
Proof.
  rewrite FloatAxioms.eqb_spec, FloatAxioms.ltb_spec. unfold SFeqb, SFltb.
  by destruct (SFcompare (Prim2SF x) (Prim2SF y)) as [[]|].
Qed.

Lemma sum_of_squares_even frame sum :
  Nat.Even (length frame) →
  sum_of_squares frame sum =
    Some (fold_left PrimFloat.add
            (map (λ sample,
                    (number sample / 32768) * (number sample / 32768))%float
               (samples_of frame)) sum).
Proof.
  intros [k Hk]. revert frame sum Hk.
  induction k as [|k IH]; intros frame sum Hk.
  - by destruct frame.
  - destruct frame as [|lo [|hi rest]]; simpl in Hk; [lia..|].
    simpl. apply IH. lia.
Qed.

Lemma calculateRMSEnergy_even frame :
  Nat.Even (length frame) →
  calculateRMSEnergy frame =
    Some (rms_energy (samples_of frame)
            (number (Z.of_nat (length frame)) / 2)%float).
Proof.
  intros He. unfold calculateRMSEnergy.
  by rewrite (sum_of_squares_even _ _ He).
Qed.

(** What [performVAD] does with a frame whose energy is not above the
    threshold. *)
Lemma performVAD_quiet now session_id frame h energy :
  calculateRMSEnergy frame = Some energy →
  (vadThreshold h <? energy)%float = false →
  performVAD now session_id frame h =
    Some (if marked h session_id && negb (timer_live h session_id)
          then set_silenceTimers (silenceTimers h ∪ {[session_id]}) h
          else h).
Proof. intros He Hlt. unfold performVAD. by rewrite He, Hlt. Qed.

(** What [performVAD] does with a frame whose energy is above the
    threshold. *)
Lemma performVAD_loud now session_id frame h energy :
  calculateRMSEnergy frame = Some energy →
  (vadThreshold h <? energy)%float = true →
  ∃ h',
    performVAD now session_id frame h = Some h' ∧
    silenceTimers h' = silenceTimers h ∖ {[session_id]} ∧
    marked h' session_id = true ∧
    (∀ other, other ≠ session_id → marked h' other = marked h other) ∧
    emitted h' =
      if marked h session_id then emitted h
      else push (emitted h) (emit_vad_start session_id).
Proof.
  intros He Hlt. unfold performVAD. rewrite He, Hlt.
  eexists. split; [reflexivity|]. unfold marked.
  assert (Ht : silenceTimers
                 (if bool_decide (session_id ∈ silenceTimers h)
                  then set_silenceTimers (silenceTimers h ∖ {[session_id]}) h
                  else h) = silenceTimers h ∖ {[session_id]}).
  { case_bool_decide as Hin; simpl; [done|].
    symmetry. by apply difference_disjoint_L, disjoint_singleton_r. }
  destruct (bool_decide (session_id ∈ silenceTimers h));
    destruct (bool_decide (is_Some (audioStreams h !! session_id))) eqn:Hm;
    simpl in *; rewrite ?Hm; simpl.
  all: repeat split; try done.
  all: try (apply bool_decide_eq_true_2; by rewrite lookup_insert_eq).
  all: intros other Hne; by rewrite lookup_insert_ne.
Qed.

(** C7. For a PCM frame (an even number of bytes), the energy that the VAD
    computes is sqrt (mean ((sample_i / 32768)²)) over the frame's 16-bit
    samples, the divisor being the byte count halved. The frame is speech
    only when this energy is strictly above the threshold: when it is not,
    and so when it equals the threshold, the frame is handled as silence:
    nothing is emitted, no session gets marked speaking, and the silence
    timer is armed exactly when the session is marked speaking and has no
    live timer. *)
Theorem vad_threshold_is_strict now session_id frame h :
  Nat.Even (length frame) →
  ∃ energy,
    calculateRMSEnergy frame = Some energy ∧
    energy = rms_energy (samples_of frame)
               (number (Z.of_nat (length frame)) / 2)%float ∧
    ∃ h',
      performVAD now session_id frame h = Some h' ∧
      ((vadThreshold h <? energy)%float = true →
       marked h' session_id = true ∧
       emitted h' =
         if marked h session_id then emitted h
         else push (emitted h) (emit_vad_start session_id)) ∧
      ((vadThreshold h <? energy)%float = false ∨
       (vadThreshold h =? energy)%float = true →
       emitted h' = emitted h ∧
       audioStreams h' = audioStreams h ∧
       silenceTimers h' =
         if marked h session_id && negb (timer_live h session_id)
         then silenceTimers h ∪ {[session_id]}
         else silenceTimers h).
Proof.
  intros He. eexists. split; [by apply calculateRMSEnergy_even|].
  split; [reflexivity|].
  set (energy := rms_energy _ _).
  pose proof (calculateRMSEnergy_even _ He) as Hc. fold energy in Hc.
  destruct (vadThreshold h <? energy)%float eqn:Hlt.
  - destruct (performVAD_loud now session_id frame h energy Hc Hlt)
      as (h' & Hp & _ & Hm & _ & Hem).
    exists h'. split; [done|]. split; [done|].
    intros [?|Heq]; [done|].
    apply float_eqb_not_ltb in Heq. congruence.
  - rewrite (performVAD_quiet _ _ _ _ _ Hc Hlt).
    eexists. split; [reflexivity|]. split; [done|]. intros _.
    by destruct (marked h session_id && negb (timer_live h session_id)).
Qed.

Lemma vad_threshold_is_strict_witness :
  ∃ energy h',
    calculateRMSEnergy [x00; x40] = Some energy ∧
    (0.5 =? energy)%float = true ∧
    performVAD 0 "s1" [x00; x40] (configureVAD 0.5 1000 WebRTC.new)
      = Some h' ∧
    emitted h' = [].
Proof.
  destruct (vad_threshold_is_strict 0 "s1" [x00; x40]
              (configureVAD 0.5 1000 WebRTC.new))
    as (energy & Hc & Heq & h' & Hp & _ & Hq); [by exists 1%nat|].
  assert (He : (0.5 =? energy)%float = true)
    by (rewrite Heq; vm_compute; reflexivity).
  exists energy, h'. split; [exact Hc|]. split; [exact He|].
  split; [exact Hp|]. exact (proj1 (Hq (or_intror He))).
Defined.

Lemma handleAudioData_alternates now session_id data h :
  Nat.Even (length data) → timers_of_marked h →
  ∃ h' events,
    handleAudioData now session_id data h = Some h' ∧
    emitted h' = emitted h ++ events ∧
    timers_of_marked h' ∧
    ∀ s, alternation s (marked h s) events = Some (marked h' s).
Proof.
  intros He Hinv. unfold handleAudioData.
  set (chunk := {| chunk_data := data |}).
  set (h0 := WebRTC.emit (emit_user_audio session_id chunk) h).
  pose proof (calculateRMSEnergy_even _ He) as Hc.
  set (energy := rms_energy _ _) in Hc.
  destruct (vadThreshold h0 <? energy)%float eqn:Hlt.
  - destruct (performVAD_loud now session_id data h0 energy Hc Hlt)
      as (h' & Hp & Ht & Hm & Ho & Hem).
    change (marked h0 session_id) with (marked h session_id) in Hem.
    exists h'.
    exists (emit_user_audio session_id chunk ::
            if marked h session_id then [] else [emit_vad_start session_id]).
    split; [done|]. split.
    { rewrite Hem. unfold h0. simpl. unfold push.
      destruct (marked h session_id); rewrite <- ?app_assoc; reflexivity. }
    split.
    { intros s Hs. rewrite Ht in Hs.
      apply elem_of_difference in Hs as [Hs Hne].
      rewrite not_elem_of_singleton in Hne.
      rewrite Ho by done. by apply Hinv. }
    intros s. unfold alternation.
    destruct (decide (s = session_id)) as [->|Hne].
    + rewrite Hm. destruct (marked h session_id); simpl; [done|].
      by rewrite bool_decide_eq_true_2.
    + rewrite (Ho s Hne). change (marked h0 s) with (marked h s).
      destruct (marked h session_id); simpl; [done|].
      by rewrite bool_decide_eq_false_2.
  - rewrite (performVAD_quiet _ _ _ _ _ Hc Hlt).
    change (marked h0 session_id) with (marked h session_id).
    change (timer_live h0 session_id) with (timer_live h session_id).
    eexists. exists [emit_user_audio session_id chunk].
    split; [reflexivity|].
    destruct (marked h session_id) eqn:Hm;
      destruct (timer_live h session_id); simpl;
      (split; [done|]); (split; [|done]); try done.
    intros s Hs. simpl in Hs.
    destruct (decide (s = session_id)) as [->|Hne]; [done|].
    apply Hinv. apply elem_of_union in Hs as [Hs|Hs]; [done|].
    by apply elem_of_singleton in Hs.
Qed.

Lemma silence_timeout_alternates session_id h :
  timers_of_marked h →
  ∃ events,
    emitted (silence_timeout session_id h) = emitted h ++ events ∧
    timers_of_marked (silence_timeout session_id h) ∧
    ∀ s, alternation s (marked h s) events
         = Some (marked (silence_timeout session_id h) s).
Proof.
  intros Hinv. unfold silence_timeout. case_bool_decide as Hlive.
  - exists [emit_vad_end session_id]. split; [done|].
    assert (Hother : ∀ s, s ≠ session_id →
      marked (WebRTC.emit (emit_vad_end session_id)
                (set_silenceTimers (silenceTimers h ∖ {[session_id]})
                   (set_audioStreams (delete session_id (audioStreams h)) h)))
             s = marked h s).
    { intros s Hne. unfold marked. simpl. by rewrite lookup_delete_ne. }
    split.
    + intros s Hs. simpl in Hs.
      apply elem_of_difference in Hs as [Hs Hne].
      rewrite not_elem_of_singleton in Hne.
      rewrite Hother by done. by apply Hinv.
    + intros s. unfold alternation.
      destruct (decide (s = session_id)) as [->|Hne].
      * rewrite (Hinv _ Hlive). simpl. rewrite bool_decide_eq_true_2 by done.
        unfold marked. simpl. rewrite lookup_delete_eq.
        by rewrite bool_decide_eq_false_2 by (by intros [? ?]).
      * rewrite (Hother s Hne). simpl.
        rewrite bool_decide_eq_false_2 by done. by destruct (marked h s).
  - exists []. by rewrite app_nil_r.
Qed.

Lemma alternation_app session_id b b' log log' :
  alternation session_id b log = Some b' →
  alternation session_id b (log ++ log') = alternation session_id b' log'.
Proof. unfold alternation. rewrite fold_left_app. by intros ->. Qed.

(** Sending on a socket touches the connections only. *)
Lemma sendMessage_detector session_id message h :
  audioStreams (sendMessage session_id message h) = audioStreams h ∧
  silenceTimers (sendMessage session_id message h) = silenceTimers h ∧
  emitted (sendMessage session_id message h) = emitted h.
Proof.
  unfold sendMessage. destruct (connections h !! session_id) as [ws|]; [|done].
  by case_bool_decide.
Qed.

Lemma handleConnection_alternates ws session_id h :
  timers_of_marked h →
  ∃ events,
    emitted (handleConnection ws session_id h) = emitted h ++ events ∧
    timers_of_marked (handleConnection ws session_id h) ∧
    ∀ s, alternation s (marked h s) events
         = Some (marked (handleConnection ws session_id h) s).
Proof.
  intros Hinv. unfold handleConnection.
  set (h0 := set_connections _ h).
  destruct (sendMessage_detector session_id (ready session_id) h0)
    as (Ha & Ht & He).
  exists []. split; [by rewrite He, app_nil_r|].
  unfold timers_of_marked, marked. rewrite Ha, Ht. split; [exact Hinv|done].
Qed.

(** A disconnection unmarks the session and drops its timer; of the events,
    it emits [disconnected] only. *)
Lemma handleDisconnect_detector session_id h :
  emitted (handleDisconnect session_id h)
    = push (emitted h) (emit_disconnected session_id) ∧
  audioStreams (handleDisconnect session_id h)
    = delete session_id (audioStreams h) ∧
  silenceTimers (handleDisconnect session_id h)
    = silenceTimers h ∖ {[session_id]} ∧
  connections (handleDisconnect session_id h)
    = delete session_id (connections h).
Proof.
  unfold handleDisconnect. cbn [silenceTimers set_audioStreams set_connections].
  case_bool_decide as Hin; simpl; [done|].
  repeat split. symmetry. by apply difference_disjoint_L, disjoint_singleton_r.
Qed.

Lemma handleDisconnect_alternates session_id h :
  timers_of_marked h →
  ∃ events,
    emitted (handleDisconnect session_id h) = emitted h ++ events ∧
    timers_of_marked (handleDisconnect session_id h) ∧
    ∀ s, alternation s (marked h s) events
         = Some (marked (handleDisconnect session_id h) s).
Proof.
  intros Hinv.
  destruct (handleDisconnect_detector session_id h) as (He & Ha & Ht & _).
  exists [emit_disconnected session_id]. split; [done|].
  assert (Hother : ∀ s, s ≠ session_id →
            marked (handleDisconnect session_id h) s = marked h s).
  { intros s Hne. unfold marked. by rewrite Ha, lookup_delete_ne. }
  split.
  - intros s Hs. rewrite Ht in Hs.
    apply elem_of_difference in Hs as [Hs Hne].
    rewrite not_elem_of_singleton in Hne.
    rewrite Hother by done. by apply Hinv.
  - intros s. unfold alternation. simpl.
    destruct (decide (s = session_id)) as [->|Hne].
    + rewrite bool_decide_eq_true_2 by done.
      unfold marked. rewrite Ha, lookup_delete_eq.
      by rewrite bool_decide_eq_false_2 by (by intros [? ?]).
    + rewrite bool_decide_eq_false_2 by done. by rewrite Hother.
Qed.

Lemma closeConnection_alternates session_id h :
  timers_of_marked h →
  ∃ events,
    emitted (closeConnection session_id h) = emitted h ++ events ∧
    timers_of_marked (closeConnection session_id h) ∧
    ∀ s, alternation s (marked h s) events
         = Some (marked (closeConnection session_id h) s).
Proof.
  intros Hinv. unfold closeConnection.
  destruct (connections h !! session_id) as [ws|].
  - by apply handleDisconnect_alternates.
  - exists []. by rewrite app_nil_r.
Qed.

Lemma process_alternates inputs h :
  Forall pcm inputs → timers_of_marked h →
  ∃ h' events,
    process inputs h = Some h' ∧
    emitted h' = emitted h ++ events ∧
    timers_of_marked h' ∧
    ∀ s, alternation s (marked h s) events = Some (marked h' s).
Proof.
  intros Hpcm. revert h.
  induction Hpcm as [|input inputs Hin _ IH]; intros h Hinv.
  - exists h, []. by rewrite app_nil_r.
  - assert (Hstep : ∃ h1 ev1,
              process (input :: inputs) h = process inputs h1 ∧
              emitted h1 = emitted h ++ ev1 ∧
              timers_of_marked h1 ∧
              ∀ s, alternation s (marked h s) ev1 = Some (marked h1 s)).
    { destruct input as [now session_id data|session_id|ws session_id
                         |session_id|session_id]; simpl.
      - destruct (handleAudioData_alternates now session_id data h Hin Hinv)
          as (h1 & ev1 & -> & H1). by exists h1, ev1.
      - destruct (silence_timeout_alternates session_id h Hinv)
          as (ev1 & H1). by eexists _, ev1.
      - destruct (handleConnection_alternates ws session_id h Hinv)
          as (ev1 & H1). by eexists _, ev1.
      - destruct (handleDisconnect_alternates session_id h Hinv)
          as (ev1 & H1). by eexists _, ev1.
      - destruct (closeConnection_alternates session_id h Hinv)
          as (ev1 & H1). by eexists _, ev1. }
    destruct Hstep as (h1 & ev1 & -> & Hem1 & Hinv1 & Halt1).
    destruct (IH h1 Hinv1) as (h' & ev & Hp & Hem & Hinv' & Halt).
    exists h', (ev1 ++ ev). split; [done|].
    split; [by rewrite Hem, Hem1, app_assoc|]. split; [done|].
    intros s. by rewrite (alternation_app _ _ _ _ _ (Halt1 s)).
Qed.

(** C10. The events of a session do not alternate over a disconnection:
    [handleDisconnect] unmarks the session without a [vad_end], so that
    speech on a socket that connects for the same session afterwards gives
    a second [vad_start]. What holds: whatever a handler is given, in order
    (sockets that connect, PCM frames, silence timers running out, sockets
    that close, requests to close a connection), and from whatever marks it
    starts with (a live timer belonging to a marked session, as after [new]
    and as after every such run), a [vad_start] is emitted for a session
    only when it is not marked speaking and a [vad_end] only when it is, the
    mark being set by [vad_start] and removed by [vad_end] and by
    [disconnected]; so the two alternate between two disconnections of the
    session. And a frame above the threshold leaves the session without a
    silence timer. *)
Theorem vad_events_alternate :
  (∀ inputs h,
     Forall pcm inputs → timers_of_marked h →
     ∃ h' events,
       process inputs h = Some h' ∧
       emitted h' = emitted h ++ events ∧
       timers_of_marked h' ∧
       ∀ s, alternation s (marked h s) events = Some (marked h' s)) ∧
  (∀ now session_id frame h energy,
     calculateRMSEnergy frame = Some energy →
     (vadThreshold h <? energy)%float = true →
     ∃ h',
       performVAD now session_id frame h = Some h' ∧
       session_id ∉ silenceTimers h').
Proof.
  split.
  - intros inputs h Hpcm Hinv.
    destruct (process_alternates inputs h Hpcm Hinv)
      as (h' & events & H1 & H2 & H3 & H4).
    by exists h', events.
  - intros now session_id frame h energy Hc Hlt.
    destruct (performVAD_loud now session_id frame h energy Hc Hlt)
      as (h' & Hp & Ht & _).
    exists h'. split; [done|]. rewrite Ht.
    rewrite elem_of_difference, elem_of_singleton. by intros [_ []].
Qed.

Lemma vad_events_alternate_witness :
  ∃ h',
    process [socket_connected open_socket "s1";
             audio_frame 0 "s1" [x00; x40];
             audio_frame 20 "s1" [x00; x00];
             silence_elapsed "s1";
             audio_frame 2000 "s1" [x00; x40];
             socket_closed "s1";
             socket_connected open_socket "s1";
             audio_frame 4000 "s1" [x00; x40]] WebRTC.new = Some h' ∧
    alternation "s1" false (emitted h') = Some (marked h' "s1").
Proof.
  destruct (proj1 vad_events_alternate
              [socket_connected open_socket "s1";
               audio_frame 0 "s1" [x00; x40];
               audio_frame 20 "s1" [x00; x00];
               silence_elapsed "s1";
               audio_frame 2000 "s1" [x00; x40];
               socket_closed "s1";
               socket_connected open_socket "s1";
               audio_frame 4000 "s1" [x00; x40]] WebRTC.new)
    as (h' & events & Hp & Hem & _ & Halt).
  - repeat constructor; simpl; by (exists 1%nat).
  - intros s Hs. by apply not_elem_of_empty in Hs.
  - exists h'. split; [exact Hp|]. rewrite Hem. exact (Halt "s1").
Defined.

(** C10, counterexample. A session speaks, its socket closes, a socket
    connects for the same session and the session speaks again: the handler
    emits [vad_start] twice for it, with no [vad_end] in between. *)
Lemma vad_start_twice_counterexample :
  ∃ h',
    process [socket_connected open_socket "s1";
             audio_frame 0 "s1" [x00; x40];
             socket_closed "s1";
             socket_connected open_socket "s1";
             audio_frame 2000 "s1" [x00; x40]] WebRTC.new = Some h' ∧
    vad_events_of "s1" (emitted h')
      = [emit_vad_start "s1"; emit_vad_start "s1"].
Proof. eexists. split; vm_compute; reflexivity. Qed.

End vad.

(** ** Registration and removal *)

(** X1. [createSession] registers the session that it returns: [getSession]
    with its id gives it back, it is IDLE with empty buffers, histories and
    counters, and no stream id; the other sessions are as they were and one
    [session_created] is emitted. *)
Theorem createSession_then_getSession now uuid config m :
  let created := createSession now uuid config m in
  getSession uuid created.2 = Some created.1 ∧
  session_id created.1 = uuid ∧
  state created.1 = IDLE ∧
  conversation_history created.1 = [] ∧
  audio_buffer created.1 = [] ∧
  transcript_buffer created.1 = [] ∧
  state_history created.1 = [] ∧
  tts_stream_id created.1 = None ∧
  total_turns (metrics created.1) = 0 ∧
  (∀ other, other ≠ uuid →
     getSession other created.2 = getSession other m) ∧
  effects created.2 = push (effects m) (emit_session_created uuid config).
Proof.
  simpl. unfold getSession. simpl. rewrite lookup_insert_eq.
  repeat split. intros other Hne. by rewrite lookup_insert_ne.
Qed.

(** X2. [deleteSession] of a registered session returns true and removes it,
    and only it; a second [deleteSession] of the same id returns false and
    leaves the machine as the first one left it. *)
Theorem deleteSession_twice now now' session_id m session :
  sessions m !! session_id = Some session →
  let first := deleteSession now session_id m in
  let second := deleteSession now' session_id first.2 in
  first.1 = true ∧
  getSession session_id first.2 = None ∧
  (∀ other, other ≠ session_id →
     getSession other first.2 = getSession other m) ∧
  second.1 = false ∧ second.2 = first.2.
Proof.
  intros Hs. cbv zeta. rewrite (deleteSession_registered _ _ _ _ Hs).
  fields. unfold getSession. fields.
  split; [done|]. split; [apply lookup_delete_eq|].
  split; [intros other Hne; by rewrite lookup_delete_ne|].
  unfold deleteSession. fields. by rewrite lookup_delete_eq.
Qed.

(** ** Requests that [transitionTo] accepts *)

(** X4. A request for a transition that the table lists makes [transitionTo]
    return true: the session is in the new state, one record (from, to,
    metadata, time) is appended to its state history, its activity stamp is
    the time of the call, its counters and buffers are untouched, the other
    sessions are untouched, and one [state_change] is emitted. *)
Theorem legal_transition_is_recorded now session_id newState metadata m
    session :
  sessions m !! session_id = Some session →
  legal (state session) newState = true →
  let result := transitionTo now session_id newState metadata m in
  result.1 = true ∧
  (∃ session',
     sessions result.2 !! session_id = Some session' ∧
     state session' = newState ∧
     state_history session' =
       push (state_history session)
         (transition_record now (state session) newState metadata) ∧
     last_activity session' = now ∧
     metrics session' = metrics session ∧
     audio_buffer session' = audio_buffer session ∧
     tts_stream_id session' = tts_stream_id session) ∧
  (∀ other, other ≠ session_id →
     sessions result.2 !! other = sessions m !! other) ∧
  effects result.2 =
    push (effects m)
      (emit_state_change session_id
         (transition_record now (state session) newState metadata)).
Proof.
  intros Hs Hl. cbv zeta. rewrite (transitionTo_accepts _ _ _ _ _ _ Hs Hl).
  fields. split; [done|]. split.
  - eexists. split; [apply lookup_insert_eq|done].
  - split; [|done]. intros other Hne. by rewrite lookup_insert_ne.
Qed.

(** X5. The table has no pair (s, s): a request for a transition to the state
    in which the session already is, is rejected and changes nothing. *)
Theorem transition_to_the_current_state_is_rejected now session_id metadata m
    session :
  sessions m !! session_id = Some session →
  transitionTo now session_id (state session) metadata m = (false, m).
Proof.
  intros Hs. apply (transitionTo_rejects _ _ _ _ _ _ Hs).
  by destruct (state session).
Qed.


(** X7. In a machine that a script reaches, the state history of a session
    is a chain of pairs of the transition table that starts in IDLE, each
    record starting where the one before it ends, and the state of the
    session is the state in which the chain ends. *)
Theorem state_history_is_a_chain m key session :
  reachable m →
  sessions m !! key = Some session →
  chain IDLE (state_history session) ∧
  last_state IDLE (state_history session) = state session.
Proof.
  intros Hreach Hs.
  by destruct (reachable_sound _ Hreach _ _ Hs) as (_ & ? & ? & _).
Qed.


(** ** The other event handlers *)

(** X9. [error] adds one to [error_count] and schedules the recovery timer in
    every state. The session moves to ERROR only from TRANSCRIBING,
    INTERPRETING, ANSWERING and SPEAKING; in IDLE, LISTENING, INTERRUPTED
    and ERROR the table has no transition to ERROR, so the state and the
    state history stay as they are. *)
Theorem error_is_counted_in_every_state now m session error :
  sessions m !! session_id session = Some session →
  let before := state session in
  let after :=
    handleEvent now {| payload_session_id := session_id session;
                       payload_event := EventType.ERROR error |} m in
  let enters :=
    bool_decide (before ∈ [TRANSCRIBING; INTERPRETING; ANSWERING; SPEAKING]) in
  ∃ session',
    sessions after !! session_id session = Some session' ∧
    error_count (metrics session') = error_count (metrics session) + 1 ∧
    state session' = (if enters then ERROR else before) ∧
    state_history session' =
      (if enters
       then push (state_history session)
              (transition_record now before ERROR (Some (meta_error error)))
       else state_history session) ∧
    effects after =
      push (if enters
            then push (effects m)
                   (emit_state_change (session_id session)
                      (transition_record now before ERROR
                         (Some (meta_error error))))
            else effects m)
        (set_timeout (error_recovery (session_id session)) 2000).
Proof.
  intros Hs. cbv zeta. rewrite (handleEvent_registered _ _ _ _ _ Hs).
  destruct session as [sid cfg st hist cur ab tb pr tts met sh ca la].
  fields in *. unfold handleError.
  destruct st; run_handler;
    (eexists; split; [apply lookup_insert_eq|]; done).
Qed.

(** X10. The callback of the interrupt timer moves a session that is still in
    INTERRUPTED to LISTENING, and the callback of the recovery timer moves a
    session that is still in ERROR to IDLE; a callback that finds the session
    in any other state leaves the whole machine as it is. *)
Theorem timers_act_in_their_state_only now m session :
  sessions m !! session_id session = Some session →
  let ref := session_id session in
  (state session = INTERRUPTED →
   ∃ session',
     sessions (timer_fired now (interrupt_ack ref) m) !! ref = Some session' ∧
     state session' = LISTENING ∧
     state_history session' =
       push (state_history session)
         (transition_record now INTERRUPTED LISTENING None)) ∧
  (state session ≠ INTERRUPTED → timer_fired now (interrupt_ack ref) m = m) ∧
  (state session = ERROR →
   ∃ session',
     sessions (timer_fired now (error_recovery ref) m) !! ref = Some session' ∧
     state session' = IDLE ∧
     state_history session' =
       push (state_history session)
         (transition_record now ERROR IDLE None)) ∧
  (state session ≠ ERROR → timer_fired now (error_recovery ref) m = m).
Proof.
  intros Hs. cbv zeta. unfold timer_fired.
  rewrite !(with_session_Some _ _ _ _ Hs).
  split; [|split; [|split]].
  - intros Hst. rewrite bool_decide_eq_true_2 by done.
    erewrite transitionTo_accepts by (eauto; by rewrite Hst).
    fields. rewrite Hst. eexists. split; [apply lookup_insert_eq|done].
  - intros Hst. by rewrite bool_decide_eq_false_2.
  - intros Hst. rewrite bool_decide_eq_true_2 by done.
    erewrite transitionTo_accepts by (eauto; by rewrite Hst).
    fields. rewrite Hst. eexists. split; [apply lookup_insert_eq|done].
  - intros Hst. by rewrite bool_decide_eq_false_2.
Qed.

(** X11. [user_audio] appends the chunk to the audio buffer in every state; it
    moves the session to LISTENING when the session is IDLE and changes the
    state in no other case. *)
Theorem user_audio_is_buffered_in_every_state now m session data :
  sessions m !! session_id session = Some session →
  ∃ session',
    sessions (handleEvent now
                {| payload_session_id := session_id session;
                   payload_event := EventType.USER_AUDIO data |} m)
      !! session_id session = Some session' ∧
    audio_buffer session' = push (audio_buffer session) data ∧
    state session' =
      (if bool_decide (state session = IDLE) then LISTENING
       else state session) ∧
    state_history session' =
      (if bool_decide (state session = IDLE)
       then push (state_history session)
              (transition_record now IDLE LISTENING None)
       else state_history session).
Proof.
  intros Hs. rewrite (handleEvent_registered _ _ _ _ _ Hs).
  destruct session as [sid cfg st hist cur ab tb pr tts met sh ca la].
  fields in *. unfold handleUserAudio.
  destruct st; run_handler;
    (eexists; split; [apply lookup_insert_eq|]; done).
Qed.

(** X12. [vad_start] received in SPEAKING does exactly what [user_interrupt]
    does; received in IDLE it moves the session to LISTENING; in every other
    state, ANSWERING included, it changes nothing but the activity stamp. *)
Theorem vad_start_interrupts_speaking_only now m session :
  sessions m !! session_id session = Some session →
  let vad_start :=
    handleEvent now {| payload_session_id := session_id session;
                       payload_event := EventType.VAD_START |} m in
  (state session = SPEAKING →
   vad_start =
     handleEvent now {| payload_session_id := session_id session;
                        payload_event := EventType.USER_INTERRUPT |} m) ∧
  (state session = IDLE →
   vad_start =
     (transitionTo now (session_id session) LISTENING None
        (stamped now session m)).2 ∧
   ∃ session',
     sessions vad_start !! session_id session = Some session' ∧
     state session' = LISTENING) ∧
  (state session ≠ SPEAKING → state session ≠ IDLE →
   vad_start = stamped now session m).
Proof.
  intros Hs. cbv zeta. rewrite !(handleEvent_registered _ _ _ _ _ Hs).
  unfold stamped.
  destruct session as [sid cfg st hist cur ab tb pr tts met sh ca la].
  fields in *. unfold handleVADStart.
  split; [|split].
  - intros ->. by run_handler.
  - intros ->. run_handler. split; [done|].
    eexists. split; [apply lookup_insert_eq|done].
  - intros H1 H2. destruct st; try done; by run_handler.
Qed.

(** X13. [vad_end], [transcription_final], [llm_response_complete],
    [tts_start] and [tts_complete] act in one state each (LISTENING,
    TRANSCRIBING, INTERPRETING, ANSWERING, SPEAKING); received in any other
    state, the event changes nothing but the activity stamp of the session:
    its data is not stored and nothing is emitted. *)
Theorem event_out_of_its_state_is_ignored now m session event expected :
  sessions m !! session_id session = Some session →
  handled_in event = Some expected →
  state session ≠ expected →
  handleEvent now {| payload_session_id := session_id session;
                     payload_event := event |} m
  = stamped now session m.
Proof.
  intros Hs Hev Hst. rewrite (handleEvent_registered _ _ _ _ _ Hs).
  unfold stamped.
  destruct session as [sid cfg st hist cur ab tb pr tts met sh ca la].
  fields in *.
  destruct event; try discriminate Hev; injection Hev as <-; cbv zeta;
    unfold handleVADEnd, handleTranscriptionFinal,
      handleLLMResponseComplete, handleTTSStart, handleTTSComplete;
    destruct st; try done; by run_handler.
Qed.



(** ** Removal of stale sessions *)

Section maintenance.
Import Maintenance.

Lemma cleanup_fold now maxAgeMs entries n acc :
  NoDup entries.*1 →
  (∀ key session, (key, session) ∈ entries →
     sessions acc !! key = Some session) →
  let result :=
    fold_left
      (λ acc entry,
         let age := now - last_activity entry.2 in
         if bool_decide (age > maxAgeMs)
         then (S acc.1, (deleteSession now entry.1 acc.2).2)
         else acc) entries (n, acc) in
  result.1 =
    (n + length (filter (λ entry, stale now maxAgeMs entry.2) entries))%nat ∧
  ∀ key,
    sessions result.2 !! key =
      match sessions acc !! key with
      | Some session =>
        if bool_decide (key ∈ entries.*1 ∧ stale now maxAgeMs session)
        then None else Some session
      | None => None
      end.
Proof.
  revert n acc. induction entries as [|[k s] entries IH]; intros n acc Hnd Hin.
  - cbv zeta. cbn [fold_left fst snd]. split; [simpl; lia|]. intros key.
    destruct (sessions acc !! key); [|done].
    rewrite bool_decide_eq_false_2; [done|]. intros [Hel _].
    by apply elem_of_nil in Hel.
  - apply NoDup_cons in Hnd as [Hk Hnd].
    cbv zeta in *. cbn [fold_left fst snd].

    assert (Hks : sessions acc !! k = Some s) by (apply Hin; left).
    case_bool_decide as Hstale.
    + rewrite (deleteSession_registered _ _ _ _ Hks). cbn [snd].
      destruct (IH (S n) {| sessions := delete k (sessions acc);
                            effects := push
                              (if legal (state s) ENDED
                               then push (effects acc)
                                      (emit_state_change k
                                         (transition_record now (state s)
                                            ENDED None))
                               else effects acc)
                              (emit_session_deleted k) |} Hnd)
        as [Hcount Hlookup].
      { intros key session Hel. cbn [sessions].
        rewrite lookup_delete_ne; [apply Hin; by right|].
        intros <-. apply Hk. apply list_elem_of_fmap. by exists (k, session). }
      split.
      * rewrite Hcount. rewrite filter_cons_True by done. simpl. lia.
      * intros key. rewrite Hlookup. cbn [sessions].
        destruct (decide (key = k)) as [->|Hne].
        -- rewrite lookup_delete_eq, Hks.
           rewrite bool_decide_eq_true_2; [done|]. split; [left|done].
        -- rewrite lookup_delete_ne by done.
           destruct (sessions acc !! key) as [session|]; [|done].
           match goal with
           | |- (if bool_decide ?A then _ else _)
                = (if bool_decide ?B then _ else _) =>
             rewrite (bool_decide_ext A B); [done|]
           end. cbn [fmap list_fmap fst].
           rewrite elem_of_cons.
           split; [intros [? ?]; split; [by right|done]|].
           by intros [[?|?] ?].
    + destruct (IH n acc Hnd) as [Hcount Hlookup].
      { intros key session Hel. apply Hin. by right. }
      split.
      * rewrite Hcount. by rewrite filter_cons_False.
      * intros key. rewrite Hlookup.
        destruct (sessions acc !! key) as [session|] eqn:Hkey; [|done].
        match goal with
           | |- (if bool_decide ?A then _ else _)
                = (if bool_decide ?B then _ else _) =>
             rewrite (bool_decide_ext A B); [done|]
           end. cbn [fmap list_fmap fst].
        rewrite elem_of_cons.
        split; [intros [? ?]; split; [by right|done]|].
        intros [[->|Hel] Hst]; [|done].
        rewrite Hks in Hkey. injection Hkey as <-. by destruct Hstale.
Qed.

(** X3. [cleanupStaleSessions] removes the sessions whose age (the time since
    their last activity) is strictly above the bound, keeps every other
    session as it is, and returns the number of sessions removed. *)
Theorem cleanup_removes_exactly_the_stale now maxAgeMs m :
  let result := cleanupStaleSessions now maxAgeMs m in
  (∀ key,
     getSession key result.2 =
       match getSession key m with
       | Some session =>
         if bool_decide (now - last_activity session > maxAgeMs)
         then None else Some session
       | None => None
       end) ∧
  result.1 =
    length (filter (λ entry, stale now maxAgeMs entry.2)
              (map_to_list (sessions m))).
Proof.
  cbv zeta. unfold cleanupStaleSessions, getSession.
  destruct (cleanup_fold now maxAgeMs (map_to_list (sessions m)) 0 m)
    as [Hcount Hlookup].
  - apply NoDup_fst_map_to_list.
  - intros key session. apply elem_of_map_to_list.
  - split; [|done]. intros key. rewrite Hlookup.
    destruct (sessions m !! key) as [session|] eqn:Hkey; [|done].
    match goal with
           | |- (if bool_decide ?A then _ else _)
                = (if bool_decide ?B then _ else _) =>
             rewrite (bool_decide_ext A B); [done|]
           end. unfold stale. split; [by intros [_ ?]|].
    intros Hst. split; [|done]. apply list_elem_of_fmap.
    exists (key, session). split; [done|]. by apply elem_of_map_to_list.
Qed.

End maintenance.

(** ** A turn of the orchestrator, from TRANSCRIBING *)

Lemma handleEvent_insert now ref event session M E :
  handleEvent now {| payload_session_id := ref; payload_event := event |}
    {| sessions := <[ref := session]> M; effects := E |} =
  let m := {| sessions := <[ref := set_last_activity now session]> M;
              effects := E |} in
  match event with
  | EventType.VAD_START => handleVADStart now ref m
  | EventType.VAD_END => handleVADEnd now ref m
  | EventType.USER_AUDIO data => handleUserAudio now ref data m
  | EventType.USER_INTERRUPT => handleUserInterrupt now ref m
  | EventType.TRANSCRIPTION_FINAL data =>
      handleTranscriptionFinal now ref data m
  | EventType.LLM_RESPONSE_COMPLETE data =>
      handleLLMResponseComplete now ref data m
  | EventType.TTS_START stream_id => handleTTSStart now ref stream_id m
  | EventType.TTS_COMPLETE => handleTTSComplete now ref m
  | EventType.ERROR error => handleError now ref error m
  | event => StateMachine.emit (emit_forward event ref) m
  end.
Proof.
  erewrite handleEvent_registered by (cbn [sessions]; apply lookup_insert_eq).
  cbn [sessions effects]. by rewrite insert_insert_eq.
Qed.

(** Symbolic execution of a script of events on one registered session. *)
Ltac run_script :=
  cbn [run fold_left step at_time map fst snd app on];
  match goal with
  | H : sessions ?m !! _ = Some _ |- context [handleEvent _ _ ?m] =>
    rewrite (handleEvent_registered _ _ _ _ _ H)
  end;
  repeat
    (cbv zeta;
     unfold handleVADStart, handleVADEnd, handleUserAudio,
       handleUserInterrupt, handleTranscriptionFinal,
       handleLLMResponseComplete, handleTTSStart, handleTTSComplete,
       handleError;
     run_handler;
     try rewrite handleEvent_insert).

Lemma processTurn_resolved session_id transcription llmResponse audioBuffer
    stream_id turn_id turnLatency now :
  Turn.processTurn session_id (Turn.resolved transcription)
    (Turn.resolved llmResponse) (Turn.resolved audioBuffer)
    stream_id turn_id turnLatency now
  = Wiring.processTurn session_id transcription llmResponse stream_id
      (Turn.turn_of turn_id transcription llmResponse turnLatency now).
Proof.
  unfold Turn.processTurn, Wiring.processTurn. simpl.
  by destruct (Orchestrator.empty_transcription _).
Qed.



(** X18. A turn whose transcription is empty or white space, run on a session
    in TRANSCRIBING: the transcription is stored and the session is left in
    INTERPRETING, whatever the other services would answer; no turn and no
    error is counted. *)
Theorem blank_turn_stays_in_interpreting now m session transcription llm tts
    stream_id turn_id turnLatency :
  sessions m !! session_id session = Some session →
  state session = TRANSCRIBING →
  Orchestrator.empty_transcription (tr_text transcription) = true →
  ∃ session',
    sessions (run (at_time now
                     (Turn.processTurn (session_id session)
                        (Turn.resolved transcription) llm tts
                        stream_id turn_id turnLatency now)) m)
      !! session_id session = Some session' ∧
    state session' = INTERPRETING ∧
    conversation_history session' = conversation_history session ∧
    total_turns (metrics session') = total_turns (metrics session) ∧
    error_count (metrics session') = error_count (metrics session) ∧
    transcript_buffer session' = push (transcript_buffer session) transcription.
Proof.
  intros Hs Hst Htext. unfold Turn.processTurn. cbn. rewrite Htext.
  destruct session as [sid cfg st hist cur ab tb pr ttsid met sh ca la].
  fields in *. subst st. run_script.
  eexists. split; [apply lookup_insert_eq|]. done.
Qed.

(** ** Connections *)

Section transport.
Import WebRTC.

(** X19. [sendMessage], [sendAudio] and [stopTTS] for a session that has no
    connection, or whose socket is not open, change nothing; for a session
    with an open socket they send one frame on that socket and leave the
    other connections as they are. *)
Theorem send_needs_an_open_connection now session_id h :
  (isConnected session_id h = false →
   (∀ message, sendMessage session_id message h = h) ∧
   (∀ audioData is_final,
      sendAudio now session_id audioData is_final h = h) ∧
   stopTTS now session_id h = h) ∧
  (isConnected session_id h = true →
   ∃ ws,
     connections h !! session_id = Some ws ∧
     (∀ message,
        connections (sendMessage session_id message h) !! session_id
          = Some (ws_send (text message) ws)) ∧
     (∀ audioData is_final,
        connections (sendAudio now session_id audioData is_final h)
          !! session_id
          = Some (ws_send (packet is_final now audioData) ws)) ∧
     (∀ message other, other ≠ session_id →
        connections (sendMessage session_id message h) !! other
          = connections h !! other)).
Proof.
  unfold isConnected, stopTTS, sendMessage, sendAudio. split.
  - destruct (connections h !! session_id) as [ws|]; [|done].
    intros Hc. apply bool_decide_eq_false_1 in Hc.
    by rewrite !bool_decide_eq_true_2.
  - destruct (connections h !! session_id) as [ws|]; [|done].
    intros Hc. apply bool_decide_eq_true_1 in Hc. exists ws.
    rewrite !bool_decide_eq_false_2 by (by intros []).
    cbn [connections set_connections]. split; [done|].
    split; [intros; apply lookup_insert_eq|].
    split; [intros; apply lookup_insert_eq|].
    intros message other Hne. by rewrite lookup_insert_ne.
Qed.

(** X20. [handleConnection] registers the socket under the session id, in place
    of an earlier one, and greets it: the [ready] message is sent when the
    socket is open and is dropped when it is not. [isConnected] then tells
    whether the socket is open; the speaking marks, the silence timers, the
    emitted events and the other connections are untouched. *)
Theorem connection_is_greeted ws session_id h :
  let h' := handleConnection ws session_id h in
  connections h' !! session_id =
    Some (if bool_decide (readyState ws = OPEN)
          then ws_send (text (ready session_id)) ws else ws) ∧
  isConnected session_id h' = bool_decide (readyState ws = OPEN) ∧
  audioStreams h' = audioStreams h ∧
  silenceTimers h' = silenceTimers h ∧
  emitted h' = emitted h ∧
  (∀ other, other ≠ session_id →
     connections h' !! other = connections h !! other).
Proof.
  cbv zeta. unfold handleConnection, sendMessage, isConnected.
  cbn [connections set_connections]. rewrite lookup_insert_eq.
  destruct (decide (readyState ws = OPEN)) as [Hopen|Hclosed].
  - rewrite (bool_decide_eq_false_2 (readyState ws ≠ OPEN)) by (by intros []).
    rewrite (bool_decide_eq_true_2 _ Hopen).
    cbn [connections set_connections audioStreams silenceTimers emitted].
    rewrite insert_insert_eq, lookup_insert_eq. cbn [readyState ws_send].
    rewrite (bool_decide_eq_true_2 _ Hopen). repeat split.
    intros other Hne. by rewrite lookup_insert_ne.
  - rewrite (bool_decide_eq_true_2 (readyState ws ≠ OPEN)) by done.
    rewrite (bool_decide_eq_false_2 _ Hclosed).
    cbn [connections set_connections audioStreams silenceTimers emitted].
    rewrite lookup_insert_eq.
    rewrite (bool_decide_eq_false_2 _ Hclosed). repeat split.
    intros other Hne. by rewrite lookup_insert_ne.
Qed.

(** X21. [handleDisconnect] drops the connection of the session, its speaking
    mark and its silence timer, and emits [disconnected] only: no [vad_end]
    is emitted for a session that was marked speaking, and the silence timer
    of the session can no longer fire. The connections, marks and timers of
    the other sessions are kept. *)
Theorem disconnect_clears_the_session session_id h :
  let h' := handleDisconnect session_id h in
  isConnected session_id h' = false ∧
  marked h' session_id = false ∧
  timer_live h' session_id = false ∧
  emitted h' = push (emitted h) (emit_disconnected session_id) ∧
  silence_timeout session_id h' = h' ∧
  (∀ other, other ≠ session_id →
     connections h' !! other = connections h !! other ∧
     marked h' other = marked h other ∧
     timer_live h' other = timer_live h other).
Proof.
  cbv zeta.
  destruct (handleDisconnect_detector session_id h) as (He & Ha & Ht & Hc).
  unfold isConnected, marked, timer_live, silence_timeout.
  rewrite He, Ha, Ht, Hc, !lookup_delete_eq.
  assert (Hnot : session_id ∉ silenceTimers h ∖ {[session_id]}).
  { rewrite elem_of_difference, elem_of_singleton. by intros [_ []]. }
  split; [done|].
  split; [by rewrite bool_decide_eq_false_2 by (by intros [? ?])|].
  split; [by rewrite bool_decide_eq_false_2|].
  split; [done|].
  split; [by rewrite bool_decide_eq_false_2|].
  intros other Hne. rewrite !lookup_delete_ne by done.
  split; [done|]. split; [done|].
  apply bool_decide_ext.
  rewrite elem_of_difference, not_elem_of_singleton. by split; [intros [? _]|].
Qed.

(** X22. [closeConnection] for a session that has no connection changes
    nothing: no [disconnected] is emitted. *)
Theorem closeConnection_of_unknown_session session_id h :
  connections h !! session_id = None →
  closeConnection session_id h = h ∧
  isConnected session_id h = false.
Proof.
  intros H. unfold closeConnection, isConnected. by rewrite H.
Qed.

(** X23. [getActiveConnections] lists exactly the sessions for which
    [isConnected] holds. *)
Theorem active_connections_are_the_open_ones session_id h :
  session_id ∈ getActiveConnections h ↔ isConnected session_id h = true.
Proof.
  unfold getActiveConnections. rewrite list_elem_of_filter.
  split; [by intros [? _]|]. intros Hc. split; [done|].
  unfold isConnected in Hc.
  destruct (connections h !! session_id) as [ws|] eqn:Hws; [|done].
  apply list_elem_of_In, in_map_iff. exists (session_id, ws).
  split; [done|]. apply list_elem_of_In. by apply elem_of_map_to_list.
Qed.

(** ** Frames that are not PCM *)

Lemma sum_of_squares_odd frame sum :
  Nat.Odd (length frame) → sum_of_squares frame sum = None.
Proof.
  intros [k Hk]. revert frame sum Hk.
  induction k as [|k IH]; intros frame sum Hk.
  - destruct frame as [|lo [|hi rest]]; simpl in Hk; [lia|done|lia].
  - destruct frame as [|lo [|hi rest]]; simpl in Hk; [lia..|].
    simpl. apply IH. lia.
Qed.

(** X24. A frame with an odd number of bytes makes [readInt16LE] throw at its
    last byte: the energy computation, [performVAD] and [handleAudioData] end
    with the exception, whatever the handler's state. *)
Theorem odd_frame_throws now session_id frame h :
  Nat.Odd (length frame) →
  calculateRMSEnergy frame = None ∧
  performVAD now session_id frame h = None ∧
  WebRTC.handleAudioData now session_id frame h = None ∧
  process [audio_frame now session_id frame] h = None.
Proof.
  intros Hodd.
  assert (Hc : calculateRMSEnergy frame = None).
  { unfold calculateRMSEnergy. by rewrite sum_of_squares_odd. }
  assert (Hp : ∀ h0, performVAD now session_id frame h0 = None).
  { intros h0. unfold performVAD. by rewrite Hc. }
  split; [done|]. split; [done|].
  assert (Ha : WebRTC.handleAudioData now session_id frame h = None)
    by apply Hp.
  split; [done|]. simpl. by rewrite Ha.
Qed.

Lemma float_ltb_nan (x : float) : (x <? nan)%float = false.
Proof.
  rewrite FloatAxioms.ltb_spec. unfold SFltb.
  replace (Prim2SF nan) with S754_nan by reflexivity.
  by destruct (Prim2SF x) as [[]|[]| |[]].
Qed.

(** X25. The energy of the empty frame is NaN (0 / 0), which is above no
    threshold: the empty frame is handled as silence, whatever the threshold
    is. *)
Theorem empty_frame_is_silence now session_id h :
  calculateRMSEnergy [] = Some nan ∧
  ∃ h',
    performVAD now session_id [] h = Some h' ∧
    emitted h' = emitted h ∧
    audioStreams h' = audioStreams h ∧
    silenceTimers h' =
      if marked h session_id && negb (timer_live h session_id)
      then silenceTimers h ∪ {[session_id]}
      else silenceTimers h.
Proof.
  assert (Hc : calculateRMSEnergy [] = Some nan) by (vm_compute; reflexivity).
  split; [done|].
  rewrite (performVAD_quiet _ _ _ _ _ Hc (float_ltb_nan _)).
  eexists. split; [reflexivity|].
  by destruct (marked h session_id && negb (timer_live h session_id)).
Qed.

End transport.

(** ** Witnesses of the further properties *)

Lemma deleteSession_twice_witness :
  (deleteSession 70 "s1" idle_machine).1 = true ∧
  (deleteSession 80 "s1" (deleteSession 70 "s1" idle_machine).2).1 = false.
Proof.
  destruct (deleteSession_twice 70 80 "s1" idle_machine idle_session)
    as (H1 & _ & _ & H2 & _); [vm_compute; reflexivity|].
  exact (conj H1 H2).
Defined.

Lemma legal_transition_is_recorded_witness :
  (transitionTo 5 "s1" LISTENING None idle_machine).1 = true.
Proof.
  destruct (legal_transition_is_recorded 5 "s1" LISTENING None idle_machine
              idle_session) as (H & _);
    [vm_compute; reflexivity | reflexivity | exact H].
Defined.

Lemma transition_to_the_current_state_is_rejected_witness :
  transitionTo 5 "s1" IDLE None idle_machine = (false, idle_machine).
Proof.
  apply (transition_to_the_current_state_is_rejected 5 "s1" None idle_machine
           idle_session).
  vm_compute; reflexivity.
Defined.


Lemma state_history_is_a_chain_witness :
  last_state IDLE (state_history (session_of interrupted_machine))
  = state (session_of interrupted_machine).
Proof.
  apply (state_history_is_a_chain interrupted_machine "s1"
           (session_of interrupted_machine));
    [exists interrupted_script; vm_compute; reflexivity
    | vm_compute; reflexivity].
Defined.


Lemma error_is_counted_in_every_state_witness :
  ∃ session',
    sessions (handleEvent 15
                {| payload_session_id := "s1";
                   payload_event := EventType.ERROR "Test error" |}
                listening_machine) !! "s1" = Some session' ∧
    error_count (metrics session') = 1 ∧
    state session' = LISTENING.
Proof.
  destruct (error_is_counted_in_every_state 15 listening_machine
              (session_of listening_machine) "Test error")
    as (session' & H1 & H2 & H3 & _); [vm_compute; reflexivity|].
  exists session'. split; [exact H1|]. split; [exact H2 | exact H3].
Defined.

Lemma timers_act_in_their_state_only_witness :
  (∃ session',
     sessions (timer_fired 260 (interrupt_ack "s1") interrupted_machine)
       !! "s1" = Some session' ∧
     state session' = LISTENING) ∧
  timer_fired 260
    (error_recovery (session_id (session_of interrupted_machine)))
    interrupted_machine
  = interrupted_machine.
Proof.
  destruct (timers_act_in_their_state_only 260 interrupted_machine
              (session_of interrupted_machine))
    as (Hack & _ & _ & Hrecovery); [vm_compute; reflexivity|].
  split.
  - destruct Hack as (session' & H1 & H2 & _); [vm_compute; reflexivity|].
    exists session'. split; [exact H1 | exact H2].
  - apply Hrecovery. intros H. vm_compute in H. discriminate H.
Defined.

Lemma user_audio_is_buffered_in_every_state_witness :
  ∃ session',
    sessions (handleEvent 55
                {| payload_session_id := "s1";
                   payload_event := EventType.USER_AUDIO a_chunk |}
                speaking_machine) !! "s1" = Some session' ∧
    audio_buffer session' = [a_chunk] ∧
    state session' = SPEAKING.
Proof.
  destruct (user_audio_is_buffered_in_every_state 55 speaking_machine
              (session_of speaking_machine) a_chunk)
    as (session' & H1 & H2 & H3 & _); [vm_compute; reflexivity|].
  exists session'. split; [exact H1|]. split; [exact H2 | exact H3].
Defined.

Lemma vad_start_interrupts_speaking_only_witness :
  handleEvent 60
    {| payload_session_id := "s1"; payload_event := EventType.VAD_START |}
    speaking_machine
  = handleEvent 60
      {| payload_session_id := "s1";
         payload_event := EventType.USER_INTERRUPT |} speaking_machine.
Proof.
  destruct (vad_start_interrupts_speaking_only 60 speaking_machine
              (session_of speaking_machine)) as (H & _);
    [vm_compute; reflexivity|].
  apply H. reflexivity.
Defined.

Lemma event_out_of_its_state_is_ignored_witness :
  handleEvent 15
    {| payload_session_id := "s1";
       payload_event := EventType.TRANSCRIPTION_FINAL hello_result |}
    listening_machine
  = stamped 15 (session_of listening_machine) listening_machine.
Proof.
  apply (event_out_of_its_state_is_ignored 15 listening_machine
           (session_of listening_machine)
           (EventType.TRANSCRIPTION_FINAL hello_result) TRANSCRIBING);
    [vm_compute; reflexivity | reflexivity
    | intros H; vm_compute in H; discriminate H].
Defined.





Lemma blank_turn_stays_in_interpreting_witness :
  ∃ session',
    sessions (run (at_time 30
                     (Turn.processTurn "s1" (Turn.resolved blank_result)
                        (Turn.resolved hi_there) (Turn.resolved [x00; x40])
                        "stream-123" "turn-1" 25 30))
                transcribing_machine) !! "s1" = Some session' ∧
    state session' = INTERPRETING.
Proof.
  destruct (blank_turn_stays_in_interpreting 30 transcribing_machine
              (session_of transcribing_machine) blank_result
              (Turn.resolved hi_there) (Turn.resolved [x00; x40])
              "stream-123" "turn-1" 25)
    as (session' & H1 & H2 & _);
    [vm_compute; reflexivity | reflexivity | vm_compute; reflexivity |].
  exists session'. split; [exact H1 | exact H2].
Defined.

Lemma send_needs_an_open_connection_witness :
  WebRTC.stopTTS 60 "s2" connected_handler = connected_handler ∧
  ∃ ws,
    WebRTC.connections connected_handler !! "s1" = Some ws ∧
    WebRTC.connections
      (WebRTC.sendMessage "s1" (WebRTC.llm_thinking 35)
         connected_handler) !! "s1"
    = Some (WebRTC.ws_send (WebRTC.text (WebRTC.llm_thinking 35)) ws).
Proof.
  split.
  - apply (proj1 (send_needs_an_open_connection 60 "s2" connected_handler)).
    vm_compute; reflexivity.
  - destruct (proj2 (send_needs_an_open_connection 60 "s1" connected_handler))
      as (ws & H1 & H2 & _); [vm_compute; reflexivity|].
    exists ws. split; [exact H1 | exact (H2 (WebRTC.llm_thinking 35))].
Defined.

Lemma closeConnection_of_unknown_session_witness :
  WebRTC.closeConnection "s2" connected_handler = connected_handler.
Proof.
  apply (closeConnection_of_unknown_session "s2" connected_handler).
  vm_compute; reflexivity.
Defined.

Lemma odd_frame_throws_witness :
  WebRTC.handleAudioData 0 "s1" [x00; x40; x00] WebRTC.new = None.
Proof.
  apply (odd_frame_throws 0 "s1" [x00; x40; x00] WebRTC.new).
  by exists 1%nat.
Defined.
